(** * Nasdaq data fetcher: parser, upsert store and task orchestrator

    A shallow embedding of [data_fetcher.py] (classes [Parser] and
    [Fetcher]) together with the schema declared in [app/models.py].

    Layout of the development:
    - [PyLib]: the interface of the external libraries the script calls
      (float(), dateutil, int(), urllib, str methods, requests);
    - the DOM of a parsed page and the BeautifulSoup queries the parser uses;
    - the relational schema of [models.py] and a single-session store with
      flush / commit / rollback;
    - the [Parser] and [Fetcher] methods, written in a state-and-exception
      monad;
    - the theorems. *)

From Stdlib Require Import ZArith Lia Ascii String.
From stdpp Require Import gmap strings list fin_maps pretty.

Open Scope Z_scope.
Open Scope string_scope.
Open Scope list_scope.

Set Warnings "-register-all".

(** ** Exceptions and results *)

(** Keyword arguments of a BeautifulSoup [find] call. *)
Record selector := Selector {
  sel_name : option string;
  sel_id : option string;
  sel_class : option string;
}.

(** Constraint of the schema that a statement violated. *)
Inductive violation :=
  | NotNullViolation (col : string)
  | UniqueViolation (cols : list string).

(** The exception classes that occur.  [ParsingError] is the script's own
    class and carries the selector of its message ("Tag {kwargs} not
    found"); [ValueError] carries the text that failed to convert;
    [HTTPError] carries the message produced by [requests]. *)
Inductive exn :=
  | ParsingError (sel : selector)
  | ValueError (text : string)
  | KeyError (key : string)
  | TypeError (attr : string)
  | AttributeError
  | IndexError
  | IntegrityError (v : violation)
  | HTTPError (msg : string).

Inductive result (A : Type) :=
  | Ok (a : A)
  | Raise (e : exn).
Arguments Ok {A} a.
Arguments Raise {A} e.

(** ** State and exception monad *)

(** Computations over a state [S] that return a value or raise; the state
    reached when an exception is raised is kept. *)
Definition M (S A : Type) : Type := S -> result A * S.

Definition ret {S A} (a : A) : M S A := fun s => (Ok a, s).

Definition bind {S A B} (c : M S A) (k : A -> M S B) : M S B :=
  fun s =>
    match c s with
    | (Ok a, s') => k a s'
    | (Raise e, s') => (Raise e, s')
    end.

Definition raise {S A} (e : exn) : M S A := fun s => (Raise e, s).

(** [try: body  except <classes>: handler] *)
Definition try_except {S A} (body : M S A) (catches : exn -> bool)
    (handler : exn -> M S A) : M S A :=
  fun s =>
    match body s with
    | (Ok a, s') => (Ok a, s')
    | (Raise e, s') => if catches e then handler e s' else (Raise e, s')
    end.

Definition lift {S A} (r : result A) : M S A := fun s => (r, s).

Definition gets {S A} (f : S -> A) : M S A := fun s => (Ok (f s), s).

Definition modify {S} (f : S -> S) : M S unit := fun s => (Ok tt, f s).

Notation "'let*' x ':=' c 'in' k" := (bind c (fun x => k))
  (at level 10, x name, c at level 100, k at level 200).
Notation "'do' c 'then' k" := (bind c (fun _ => k))
  (at level 10, c at level 100, k at level 200).

(** ** Page DOM *)

Inductive node :=
  | Tag (name : string) (attrs : list (string * string)) (children : list node)
  | NavigableString (text : string).

(** All nodes below [n], in document order. *)
Fixpoint descendants (n : node) : list node :=
  match n with
  | NavigableString _ => []
  | Tag _ _ cs =>
      (fix go (l : list node) : list node :=
         match l with
         | [] => []
         | c :: l' => c :: descendants c ++ go l'
         end) cs
  end.

Definition children_of (n : node) : list node :=
  match n with
  | Tag _ _ cs => cs
  | NavigableString _ => []
  end.

Fixpoint assoc {A} (k : string) (l : list (string * A)) : option A :=
  match l with
  | [] => None
  | (k', v) :: l' => if decide (k = k') then Some v else assoc k l'
  end.

(** [tag.get(name)] *)
Definition attr_get (n : node) (name : string) : option string :=
  match n with
  | Tag _ attrs _ => assoc name attrs
  | NavigableString _ => None
  end.

Definition is_space (a : ascii) : bool :=
  bool_decide (a = " "%char) || bool_decide (a = "009"%char)
  || bool_decide (a = "010"%char) || bool_decide (a = "013"%char).

(** The whitespace-separated words of a [class] attribute. *)
Fixpoint words_go (cur : string) (s : string) : list string :=
  match s with
  | EmptyString => if decide (cur = "") then [] else [cur]
  | String a s' =>
      if is_space a
      then (if decide (cur = "") then words_go "" s' else cur :: words_go "" s')
      else words_go (cur +:+ String a EmptyString) s'
  end.
Definition words (s : string) : list string := words_go "" s.

Definition opt_test {A} (o : option A) (p : A -> bool) : bool :=
  match o with
  | None => true
  | Some a => p a
  end.

(** Does a node satisfy the keyword arguments of [find]? *)
Definition matches (sel : selector) (n : node) : bool :=
  match n with
  | NavigableString _ => false
  | Tag name attrs _ =>
      opt_test (sel_name sel) (fun x => bool_decide (name = x))
      && opt_test (sel_id sel) (fun x => bool_decide (assoc "id" attrs = Some x))
      && opt_test (sel_class sel) (fun x =>
           match assoc "class" attrs with
           | Some c => bool_decide (c = x) || bool_decide (x ∈ words c)
           | None => false
           end)
  end.

(** [dom.find(...)] with keyword arguments: the first matching descendant. *)
Definition dom_find (sel : selector) (n : node) : option node :=
  head (filter (fun x => Is_true (matches sel x)) (descendants n)).

Definition by_name (name : string) : selector := Selector (Some name) None None.

(** [dom.find_all(name)] and [dom.find_all(name, recursive=False)] *)
Definition dom_find_all (name : string) (recursive : bool) (n : node) : list node :=
  filter (fun x => Is_true (matches (by_name name) x))
         (if recursive then descendants n else children_of n).

(** [tag.get_text()] *)
Fixpoint get_text (n : node) : string :=
  match n with
  | NavigableString s => s
  | Tag _ _ cs =>
      (fix go (l : list node) : string :=
         match l with
         | [] => ""
         | c :: l' => get_text c +:+ go l'
         end) cs
  end.

(** ** External libraries *)

(** The script relies on Python builtins and third-party packages whose code
    is not part of the repository.  They are taken as an interface.  A
    conversion that returns [None] stands for the call raising [ValueError],
    which is the only failure the script's handlers anticipate. *)
Class PyLib := {
  Float : Type;
  Date : Type;
  Float_eq_dec :: EqDecision Float;
  Date_eq_dec :: EqDecision Date;
  (* float(s) *)
  py_float : string -> option Float;
  (* dateutil.parser.parse(s).date() *)
  date_parse : string -> option Date;
  (* int(s) *)
  py_int : string -> option Z;
  (* urllib.parse.urlparse(s).query *)
  urlparse_query : string -> string;
  (* urllib.parse.parse_qs(q), as an association list *)
  parse_qs : string -> list (string * list string);
  (* str.lower and str.strip *)
  str_lower : string -> string;
  str_strip : string -> string;
}.

(** A small instance of the interface, used by the examples: numbers are
    plain decimal numerals, a date is any non-empty text, a URL carries at
    most one [key=value] pair after its question mark, and the case and
    whitespace functions leave their argument alone. *)
Module ExampleLib.

Fixpoint numeral (acc : Z) (s : string) : option Z :=
  match s with
  | EmptyString => Some acc
  | String a s' =>
      let n := Z.of_nat (nat_of_ascii a) in
      if decide (48 <= n <= 57) then numeral (10 * acc + (n - 48)) s'
      else None
  end.

Definition decimal (s : string) : option Z :=
  if decide (s = "") then None else numeral 0 s.

Definition nonempty (s : string) : option string :=
  if decide (s = "") then None else Some s.

Fixpoint after (sep : ascii) (s : string) : option string :=
  match s with
  | EmptyString => None
  | String a s' => if decide (a = sep) then Some s' else after sep s'
  end.

Fixpoint before (sep : ascii) (s : string) : string :=
  match s with
  | EmptyString => EmptyString
  | String a s' => if decide (a = sep) then EmptyString
                   else String a (before sep s')
  end.

Definition query (url : string) : string := default "" (after "?"%char url).

Definition single_pair (q : string) : list (string * list string) :=
  match after "="%char q with
  | Some v => if decide (v = "") then [] else [(before "="%char q, [v])]
  | None => []
  end.

#[export] Instance lib : PyLib := {|
  Float := Z;
  Date := string;
  py_float := decimal;
  date_parse := nonempty;
  py_int := decimal;
  urlparse_query := query;
  parse_qs := single_pair;
  str_lower := fun s => s;
  str_strip := fun s => s;
|}.

End ExampleLib.

(** ** Values *)

Section WithLib.
Context `{PyLib}.

(** Python values stored in dictionaries and table columns. *)
Inductive value :=
  | VNone
  | VStr (s : string)
  | VInt (z : Z)
  | VFloat (f : Float)
  | VDate (d : Date).

#[export] Instance value_eq_dec : EqDecision value.
Proof. solve_decision. Defined.

(** A Python dict with string keys; also a table row, where a missing
    column and a column holding [None] both read as SQL NULL. *)
Abbreviation row := (gmap string value).

Definition get (k : string) (r : row) : value := default VNone (r !! k).

(** ** Schema of [models.py] *)

Inductive model := Stock | Quote | Insider | Trade.

#[export] Instance model_eq_dec : EqDecision model.
Proof. solve_decision. Defined.

Definition columns (m : model) : list string :=
  match m with
  | Stock => ["id"; "ticker"]
  | Quote => ["id"; "stock_id"; "date"; "open_price"; "close_price";
              "high_price"; "low_price"; "volume"]
  | Insider => ["id"; "name"; "relation"]
  | Trade => ["id"; "stock_id"; "insider_id"; "transaction_type"; "owner_type";
              "last_date"; "shares_traded"; "last_price"; "shares_hold"]
  end.

(** Columns declared [primary_key=True] or [nullable=False]. *)
Definition not_null (m : model) : list string :=
  match m with
  | Stock => ["id"; "ticker"]
  | Quote => ["id"; "stock_id"; "date"; "open_price"; "close_price";
              "high_price"; "low_price"; "volume"]
  | Insider => ["id"; "name"; "relation"]
  | Trade => ["id"; "stock_id"; "insider_id"; "transaction_type"; "owner_type";
              "last_date"; "shares_traded"; "shares_hold"]
  end.

(** The natural key: [unique=True] columns and [UniqueConstraint]s. *)
Definition natural_key (m : model) : option (list string) :=
  match m with
  | Stock => Some ["ticker"]
  | Quote => Some ["stock_id"; "date"]
  | Insider => Some ["name"]
  | Trade => None
  end.

(** All uniqueness constraints, the primary key first. *)
Definition unique_constraints (m : model) : list (list string) :=
  ["id"] :: match natural_key m with Some k => [k] | None => [] end.

(** ** Store *)

Record table := Table {
  rows : list row;
  next_id : Z;
}.

Record database := Database {
  stocks : table;
  quotes : table;
  insiders : table;
  trades : table;
}.

Definition table_of (m : model) (d : database) : table :=
  match m with
  | Stock => stocks d
  | Quote => quotes d
  | Insider => insiders d
  | Trade => trades d
  end.

Definition set_table (m : model) (t : table) (d : database) : database :=
  match m with
  | Stock => Database t (quotes d) (insiders d) (trades d)
  | Quote => Database (stocks d) t (insiders d) (trades d)
  | Insider => Database (stocks d) (quotes d) t (trades d)
  | Trade => Database (stocks d) (quotes d) (insiders d) t
  end.

(** Two rows collide on a constraint when every column of it is non-NULL
    and equal in both. *)
Definition agree (c : list string) (r1 r2 : row) : bool :=
  forallb (fun k => bool_decide (get k r1 ≠ VNone)
                    && bool_decide (get k r1 = get k r2)) c.

Definition check_not_null (m : model) (r : row) : option string :=
  List.find (fun k => bool_decide (get k r = VNone)) (not_null m).

Definition check_unique (m : model) (r : row) (others : list row)
  : option (list string) :=
  List.find (fun c => existsb (agree c r) others) (unique_constraints m).

(** Constraints are checked in a fixed order: NOT NULL columns, then the
    primary key, then the natural key; the first violation is reported. *)
Definition check_row (m : model) (r : row) (others : list row)
  : option violation :=
  match check_not_null m r with
  | Some k => Some (NotNullViolation k)
  | None => UniqueViolation <$> check_unique m r others
  end.

(** SQL statements that reached the store and succeeded. *)
Inductive sql :=
  | SqlInsert (m : model) (r : row)
  | SqlUpdate (m : model) (r : row)
  | SqlCommit
  | SqlRollback.

(** Messages of the [fetcher] logger, with their interpolated values. *)
Inductive log_entry :=
  | WarnRowSize (expected actual : nat) (r : list string)
  | WarnDataFormat (ticker : string) (page : option Z) (e : exn)
  | InfoFetching (workers : Z)
  | ErrorTaskFailed (e : exn)
  | InfoTaskFinished (result : string)
  | InfoFinished.

(** The state the script acts on: the remote site (what
    [requests.get(url, params)], [raise_for_status()] and the BeautifulSoup
    parse of the body give for each request), the durable content of the
    database, the content seen by the session's open transaction, the
    session's unit of work (objects added but not flushed, and modified
    persistent objects with their identity), the logger output and the
    statements issued. *)
Record state := State {
  web : string -> list (string * Z) -> result node;
  committed : database;
  working : database;
  pending : list (model * row);
  dirty : list (model * value * row);
  log : list log_entry;
  trace : list sql;
}.

(** ** Logger and conversions *)

Definition add_log (e : log_entry) (s : state) : state :=
  State (web s) (committed s) (working s) (pending s) (dirty s)
        (log s ++ [e]) (trace s).

Definition add_trace (q : sql) (s : state) : state :=
  State (web s) (committed s) (working s) (pending s) (dirty s)
        (log s) (trace s ++ [q]).

Definition set_working (d : database) (s : state) : state :=
  State (web s) (committed s) d (pending s) (dirty s) (log s) (trace s).

Definition set_pending (l : list (model * row)) (s : state) : state :=
  State (web s) (committed s) (working s) l (dirty s) (log s) (trace s).

Definition set_dirty (l : list (model * value * row)) (s : state) : state :=
  State (web s) (committed s) (working s) (pending s) l (log s) (trace s).

Definition logger (e : log_entry) : M state unit := modify (add_log e).

(** [float(s)] *)
Definition float_ (s : string) : M state Float :=
  match py_float s with
  | Some f => ret f
  | None => raise (ValueError s)
  end.

(** [date_parser.parse(s).date()] *)
Definition date_ (s : string) : M state Date :=
  match date_parse s with
  | Some d => ret d
  | None => raise (ValueError s)
  end.

(** [int(s)] *)
Definition int_ (s : string) : M state Z :=
  match py_int s with
  | Some z => ret z
  | None => raise (ValueError s)
  end.

(** [s.replace(',', '')] *)
Fixpoint remove_commas (s : string) : string :=
  match s with
  | EmptyString => EmptyString
  | String a s' =>
      if decide (a = ","%char) then remove_commas s'
      else String a (remove_commas s')
  end.

(** [row[i]] on a row whose length was checked *)
Definition cell (i : nat) (r : list string) : string := nth i r "".

Definition is_ValueError (e : exn) : bool :=
  match e with ValueError _ => true | _ => false end.

Definition is_IntegrityError (e : exn) : bool :=
  match e with IntegrityError _ => true | _ => false end.

(** [except Exception] *)
Definition is_Exception (e : exn) : bool := true.

(** ** Parser *)

Definition BASE_URL : string := "https://www.nasdaq.com".

Definition parse_page (url : string) (params : list (string * Z))
  : M state node :=
  fun s => (web s url params, s).

Definition find_tag (dom : node) (sel : selector) : M state node :=
  match dom_find sel dom with
  | None => raise (ParsingError sel)
  | Some t => ret t
  end.

Definition parse_table (table_dom : node) : list (list string) :=
  map (fun r => map (fun col => str_strip (get_text col))
                    (dom_find_all "td" true r))
      (dom_find_all "tr" false table_dom).

(** The [dict(...)] built from a history row; conversions run in the order
    of the keyword arguments. *)
Definition history_item (r : list string) : M state row :=
  let* d := date_ (cell 0 r) in
  let* o := float_ (remove_commas (cell 1 r)) in
  let* h := float_ (remove_commas (cell 2 r)) in
  let* l := float_ (remove_commas (cell 3 r)) in
  let* c := float_ (remove_commas (cell 4 r)) in
  let* v := float_ (remove_commas (cell 5 r)) in
  ret (<["date" := VDate d]> (<["open_price" := VFloat o]>
      (<["high_price" := VFloat h]> (<["low_price" := VFloat l]>
      (<["close_price" := VFloat c]> (<["volume" := VFloat v]> ∅)))))).

(** The [for row in table] loop of [parse_history]. *)
Fixpoint parse_history_rows (ticker : string) (table : list (list string))
    (result : list row) : M state (list row) :=
  match table with
  | [] => ret result
  | r :: rest =>
      if decide (length r ≠ 6%nat) then
        do logger (WarnRowSize 6 (length r) r) then
        parse_history_rows ticker rest result
      else
        let* result' :=
          try_except
            (let* item := history_item r in ret (result ++ [item]))
            is_ValueError
            (fun e => do logger (WarnDataFormat ticker None e) then ret result) in
        parse_history_rows ticker rest result'
  end.

Definition parse_history (ticker : string) : M state (list row) :=
  let* page_dom :=
    parse_page (BASE_URL +:+ "/symbol/" +:+ str_lower ticker +:+ "/historical") [] in
  let* div_dom :=
    find_tag page_dom
      (Selector (Some "div") (Some "quotes_content_left_pnlAJAX") None) in
  let* table := find_tag div_dom (by_name "table") in
  (* [.find('tbody')] may return None, on which [find_all] is undefined *)
  match dom_find (by_name "tbody") table with
  | None => raise AttributeError
  | Some table_dom => parse_history_rows ticker (parse_table table_dom) []
  end.

Definition parse_trades_page_count (page_dom : node) : M state Z :=
  let* last_page_dom :=
    find_tag page_dom
      (Selector None (Some "quotes_content_left_lb_LastPage") None) in
  let last_page_url_query :=
    urlparse_query (default "" (attr_get last_page_dom "href")) in
  match default ["1"] (assoc "page" (parse_qs last_page_url_query)) with
  | [] => raise IndexError
  | p :: _ => int_ p
  end.

(** The [dict(...)] built from a trade row. *)
Definition trade_item (r : list string) : M state row :=
  let* d := date_ (cell 2 r) in
  let* st := float_ (remove_commas (cell 5 r)) in
  let* lp :=
    (if decide (cell 6 r = "") then ret VNone
     else let* f := float_ (cell 6 r) in ret (VFloat f)) in
  let* sh := float_ (remove_commas (cell 7 r)) in
  ret (<["insider" := VStr (cell 0 r)]> (<["relation" := VStr (cell 1 r)]>
      (<["last_date" := VDate d]> (<["transaction_type" := VStr (cell 3 r)]>
      (<["owner_type" := VStr (cell 4 r)]> (<["shares_traded" := VFloat st]>
      (<["last_price" := lp]> (<["shares_hold" := VFloat sh]> ∅)))))))).

(** The [for row in table] loop of [parse_trades]. *)
Fixpoint parse_trades_rows (ticker : string) (page : Z)
    (table : list (list string)) (result : list row) : M state (list row) :=
  match table with
  | [] => ret result
  | r :: rest =>
      if decide (length r ≠ 8%nat) then
        do logger (WarnRowSize 8 (length r) r) then
        parse_trades_rows ticker page rest result
      else
        let* result' :=
          try_except
            (let* item := trade_item r in ret (result ++ [item]))
            is_ValueError
            (fun e => do logger (WarnDataFormat ticker (Some page) e) then ret result) in
        parse_trades_rows ticker page rest result'
  end.

Definition parse_trades (ticker : string) (page : Z) : M state (list row) :=
  let* page_dom :=
    parse_page (BASE_URL +:+ "/symbol/" +:+ str_lower ticker +:+ "/insider-trades")
               [("page", page)] in
  let* page_count := parse_trades_page_count page_dom in
  if decide (page <= page_count) then
    let* div_dom := find_tag page_dom (Selector (Some "div") None (Some "genTable")) in
    let* table_dom := find_tag div_dom (by_name "table") in
    parse_trades_rows ticker page (parse_table table_dom) []
  else ret [].

(** ** Session *)

(** The INSERT of one row: the primary key defaults to the next value of
    the table's sequence, then the constraints are checked. *)
Definition with_default_id (t : table) (r : row) : row :=
  match get "id" r with
  | VNone => <["id" := VInt (next_id t)]> r
  | _ => r
  end.

Definition insert_row (m : model) (r : row) : M state row :=
  fun s =>
    let t := table_of m (working s) in
    let r1 := with_default_id t r in
    match check_row m r1 (rows t) with
    | Some v => (Raise (IntegrityError v), s)
    | None =>
        (Ok r1,
         add_trace (SqlInsert m r1)
           (set_working
              (set_table m (Table (rows t ++ [r1]) (next_id t + 1)) (working s))
              s))
    end.

(** The UPDATE of the row whose primary key is [identity]. *)
Definition update_row (m : model) (identity : value) (r : row) : M state unit :=
  fun s =>
    let t := table_of m (working s) in
    let others := filter (fun x => get "id" x ≠ identity) (rows t) in
    match check_row m r others with
    | Some v => (Raise (IntegrityError v), s)
    | None =>
        (Ok tt,
         add_trace (SqlUpdate m r)
           (set_working
              (set_table m
                 (Table (map (fun x => if decide (get "id" x = identity)
                                       then r else x) (rows t))
                        (next_id t))
                 (working s))
              s))
    end.

Fixpoint flush_new (l : list (model * row)) : M state (list row) :=
  match l with
  | [] => ret []
  | (m, r) :: l' =>
      let* r1 := insert_row m r in
      let* rs := flush_new l' in
      ret (r1 :: rs)
  end.

Fixpoint flush_dirty (l : list (model * value * row)) : M state unit :=
  match l with
  | [] => ret tt
  | (m, identity, r) :: l' =>
      do update_row m identity r then flush_dirty l'
  end.

(** [session.add(instance)] *)
Definition session_add (m : model) (r : row) : M state unit :=
  modify (fun s => set_pending (pending s ++ [(m, r)]) s).

(** [session.flush()]; gives the flushed new objects as the database
    stored them, that is with their primary key. *)
Definition session_flush : M state (list row) :=
  let* new := gets pending in
  let* rs := flush_new new in
  let* upd := gets dirty in
  do flush_dirty upd then
  do modify (fun s => set_dirty [] (set_pending [] s)) then
  ret rs.

(** [session.commit()] *)
Definition session_commit : M state unit :=
  do session_flush then
  modify (fun s =>
    add_trace SqlCommit
      (State (web s) (working s) (working s) (pending s) (dirty s)
             (log s) (trace s))).

(** [session.rollback()] *)
Definition session_rollback : M state unit :=
  modify (fun s =>
    add_trace SqlRollback
      (State (web s) (committed s) (committed s) [] [] (log s) (trace s))).

Definition matches_keys (key_fields : list (string * value)) (r : row) : bool :=
  forallb (fun kv => bool_decide (get kv.1 r = kv.2)) key_fields.

(** [session.query(model).filter_by(key_fields).first()]; a query flushes
    the session first. *)
Definition query_first (m : model) (key_fields : list (string * value))
  : M state (option row) :=
  do session_flush then
  gets (fun s =>
    head (filter (fun r => Is_true (matches_keys key_fields r))
                 (rows (table_of m (working s))))).

(** Registers a modified persistent object, replacing an earlier
    registration of the same object. *)
Definition mark_dirty (m : model) (identity : value) (r : row) (s : state)
  : state :=
  set_dirty
    (filter (fun e => ¬ (e.1.1 = m ∧ e.1.2 = identity)) (dirty s)
       ++ [(m, identity, r)]) s.

(** [setattr(instance, key, value)] on the result of a query *)
Definition setattr (m : model) (identity : value) (instance : option row)
    (key : string) (v : value) : M state (option row) :=
  match instance with
  | None => raise AttributeError
  | Some r =>
      do modify (mark_dirty m identity (<[key := v]> r)) then
      ret (Some (<[key := v]> r))
  end.

(** [for key, value in data.items(): setattr(instance, key, value)] *)
Fixpoint setattr_items (m : model) (identity : value) (instance : option row)
    (items : list (string * value)) : M state (option row) :=
  match items with
  | [] => ret instance
  | (key, v) :: rest =>
      let* instance' := setattr m identity instance key v in
      setattr_items m identity instance' rest
  end.

(** [instance.id] *)
Definition getattr_id (instance : option row) : M state value :=
  match instance with
  | None => raise AttributeError
  | Some r => ret (get "id" r)
  end.

(** ** Fetcher *)

(** [{key: data[key] for key in keys}] *)
Fixpoint select_keys (data : row) (keys : list string)
  : M state (list (string * value)) :=
  match keys with
  | [] => ret []
  | key :: rest =>
      match data !! key with
      | None => raise (KeyError key)
      | Some v =>
          let* kf := select_keys data rest in
          ret ((key, v) :: kf)
      end
  end.

(** [model(data)]: the declarative constructor rejects a keyword that is
    not a column of the model. *)
Definition construct (m : model) (data : row) : M state row :=
  match List.find (fun k => bool_decide (k ∉ columns m))
                  (map fst (map_to_list data)) with
  | Some k => raise (TypeError k)
  | None => ret data
  end.

Definition upsert (m : model) (data : row) (keys : list string)
  : M state (option row) :=
  let* key_fields := select_keys data keys in
  let* instance := construct m data in
  let* instance :=
    try_except
      (do session_add m instance then
       let* flushed := session_flush in
       ret (last flushed))
      is_IntegrityError
      (fun _ =>
         do session_rollback then
         let* instance := query_first m key_fields in
         setattr_items m (default VNone (get "id" <$> instance)) instance
                       (map_to_list data)) in
  do session_commit then
  ret instance.

(** The [for item in history] loop of [fetch_history]. *)
Fixpoint upsert_quotes (stock : option row) (history : list row)
  : M state unit :=
  match history with
  | [] => ret tt
  | item :: rest =>
      let* stock_id := getattr_id stock in
      do upsert Quote (<["stock_id" := stock_id]> item) ["date"; "stock_id"] then
      upsert_quotes stock rest
  end.

Definition fetch_history (ticker : string) : M state string :=
  let* history := parse_history ticker in
  do try_except
       (let* stock := upsert Stock {["ticker" := VStr ticker]} ["ticker"] in
        upsert_quotes stock history)
       is_Exception
       (fun e => do session_rollback then raise e) then
  ret (pretty (length history) +:+ " history items for '" +:+ ticker
       +:+ "' has been collected").

(** [d.pop(key)] *)
Definition pop (key : string) (d : row) : M state (value * row) :=
  match d !! key with
  | None => raise (KeyError key)
  | Some v => ret (v, delete key d)
  end.

(** The [for trade in trades] loop of [fetch_trades]. *)
Fixpoint insert_trades (stock : option row) (trades : list row)
  : M state unit :=
  match trades with
  | [] => ret tt
  | trade :: rest =>
      let* p1 := pop "insider" trade in
      let* p2 := pop "relation" p1.2 in
      let insider_data := <["name" := p1.1]> (<["relation" := p2.1]> ∅) in
      let* insider := upsert Insider insider_data ["name"] in
      let* stock_id := getattr_id stock in
      let* insider_id := getattr_id insider in
      let* instance :=
        construct Trade
          (<["stock_id" := stock_id]> (<["insider_id" := insider_id]> p2.2)) in
      do session_add Trade instance then
      do session_commit then
      insert_trades stock rest
  end.

Definition fetch_trades (ticker : string) (page : Z) : M state string :=
  let* trades := parse_trades ticker page in
  do try_except
       (let* stock := upsert Stock {["ticker" := VStr ticker]} ["ticker"] in
        insert_trades stock trades)
       is_Exception
       (fun e => do session_rollback then raise e) then
  ret (pretty (length trades) +:+ " trade items for '" +:+ ticker
       +:+ "' has been collected (page: " +:+ pretty page +:+ ")").

(** ** Orchestrator *)

Record Fetcher := {
  max_workers : Z;
  max_trades_pages : Z;
}.

(** What [executor.submit] was called with. *)
Inductive task :=
  | FetchHistory (ticker : string)
  | FetchTrades (ticker : string) (page : Z).

Definition run_task (t : task) : M state string :=
  match t with
  | FetchHistory ticker => fetch_history ticker
  | FetchTrades ticker page => fetch_trades ticker page
  end.

(** [range(n)] *)
Definition range (n : Z) : list Z := map Z.of_nat (seq 0 (Z.to_nat n)).

(** The submission loop of [fetch]: the tasks handed to the executor, in
    submission order. *)
Definition submitted (self : Fetcher) (tickers : list string) : list task :=
  flat_map
    (fun ticker =>
       FetchHistory ticker
       :: map (fun page => FetchTrades ticker (page + 1))
              (range (max_trades_pages self)))
    tickers.




Section Pool.
(** The order in which the pool completes the submitted tasks. *)
Variable schedule : list task -> list task.


End Pool.

End WithLib.

Abbreviation row := (gmap string value).

(** ** Specification-side definitions *)

Section Specs.
Context `{PyLib}.

(** The record the specification assigns to a row of the history table:
    six cells, the first a date, the others numbers written with thousands
    separators; any other row has no record. *)
Definition spec_history_record (r : list string) : option row :=
  match r with
  | [c0; c1; c2; c3; c4; c5] =>
      d ← date_parse c0;
      o ← py_float (remove_commas c1);
      h ← py_float (remove_commas c2);
      l ← py_float (remove_commas c3);
      c ← py_float (remove_commas c4);
      v ← py_float (remove_commas c5);
      Some (<["date" := VDate d]> (<["open_price" := VFloat o]>
           (<["high_price" := VFloat h]> (<["low_price" := VFloat l]>
           (<["close_price" := VFloat c]> (<["volume" := VFloat v]> ∅))))))
  | _ => None
  end.

(** The record of a row of the insider-trades table: eight cells, of which
    the third is a date, the sixth and eighth are numbers written with
    thousands separators, and the seventh is a number or empty. *)
Definition spec_trade_record (r : list string) : option row :=
  match r with
  | [c0; c1; c2; c3; c4; c5; c6; c7] =>
      d ← date_parse c2;
      st ← py_float (remove_commas c5);
      lp ← (if decide (c6 = "") then Some VNone else VFloat <$> py_float c6);
      sh ← py_float (remove_commas c7);
      Some (<["insider" := VStr c0]> (<["relation" := VStr c1]>
           (<["last_date" := VDate d]> (<["transaction_type" := VStr c3]>
           (<["owner_type" := VStr c4]> (<["shares_traded" := VFloat st]>
           (<["last_price" := lp]> (<["shares_hold" := VFloat sh]> ∅))))))))
  | _ => None
  end.

(** The id of the "last page" navigation link. *)
Definition last_page_link : selector :=
  Selector None (Some "quotes_content_left_lb_LastPage") None.

(** The query string of the link's [href], as [parse_qs] decodes it. *)
Definition link_query (link : node) : list (string * list string) :=
  parse_qs (urlparse_query (default "" (attr_get link "href"))).

(** A database with no rows, its sequences at their first value, and a
    session with nothing to flush, in front of a given site. *)
Definition empty_table : table := Table [] 1.

Definition empty_database : database :=
  Database empty_table empty_table empty_table empty_table.

Definition initial_state (site : string -> list (string * Z) -> result node)
  : state :=
  State site empty_database empty_database [] [] [] [].

(** *** Consistency of the store *)

(** No two rows of a table collide on the constraint [c]. *)
Definition unique_on (c : list string) (l : list row) : Prop :=
  ∀ i j ri rj, l !! i = Some ri -> l !! j = Some rj ->
               agree c ri rj = true -> i = j.

(** A table satisfies the NOT NULL and uniqueness constraints of its model. *)
Definition table_ok (m : model) (t : table) : Prop :=
  (∀ r, r ∈ rows t -> check_not_null m r = None)
  ∧ (∀ c, c ∈ unique_constraints m -> unique_on c (rows t)).

Definition database_ok (d : database) : Prop :=
  ∀ m, table_ok m (table_of m d).

(** Every primary key was drawn from the table's sequence. *)
Definition ids_fresh (t : table) : Prop :=
  ∀ r, r ∈ rows t -> ∃ z, get "id" r = VInt z ∧ z < next_id t.

(** The session has no unit of work and no open transaction. *)
Definition clean (s : state) : Prop :=
  pending s = [] ∧ dirty s = [] ∧ working s = committed s.

(** The state after a commit that had nothing left to flush, and after a
    rollback. *)
Definition after_commit (s : state) : state :=
  State (web s) (working s) (working s) [] [] (log s) (trace s ++ [SqlCommit]).

Definition after_rollback (s : state) : state :=
  State (web s) (committed s) (committed s) [] [] (log s)
        (trace s ++ [SqlRollback]).

(** The key fields that [upsert] selects from its payload. *)
Definition key_fields (data : row) (keys : list string)
  : list (string * value) :=
  map (fun k => (k, get k data)) keys.

(** The rows of a model that a [filter_by] on the key fields returns. *)
Definition resident (m : model) (kf : list (string * value)) (d : database)
  : list row :=
  filter (fun r => Is_true (matches_keys kf r)) (rows (table_of m d)).

(** A state the script can be in between two tasks: the session is idle,
    the database satisfies its constraints and every id came from its
    table's sequence. *)
Definition consistent (s : state) : Prop :=
  clean s
  ∧ database_ok (committed s)
  ∧ ∀ m, ids_fresh (table_of m (committed s)).



(** The dicts that the two parsers return. *)
Definition is_history_item (item : row) : Prop :=
  ∃ r, spec_history_record r = Some item.

Definition is_trade_item (item : row) : Prop :=
  ∃ r, spec_trade_record r = Some item.

(** The payloads the tasks build. *)
Definition stock_data (ticker : string) : row := {["ticker" := VStr ticker]}.

Definition insider_data (trade : row) : row :=
  <["name" := get "insider" trade]> (<["relation" := get "relation" trade]> ∅).


(** *** Order of the statements *)







(** The messages the two tasks return. *)
Definition history_message (n : nat) (ticker : string) : string :=
  pretty n +:+ " history items for '" +:+ ticker +:+ "' has been collected".

Definition trades_message (n : nat) (ticker : string) (page : Z) : string :=
  pretty n +:+ " trade items for '" +:+ ticker
  +:+ "' has been collected (page: " +:+ pretty page +:+ ")".



(** The ticker a task was submitted for. *)
Definition task_ticker (t : task) : string :=
  match t with
  | FetchHistory ticker => ticker
  | FetchTrades ticker _ => ticker
  end.

(** The URLs and selectors of the two pages. *)
Definition history_url (ticker : string) : string :=
  BASE_URL +:+ "/symbol/" +:+ str_lower ticker +:+ "/historical".

Definition trades_url (ticker : string) : string :=
  BASE_URL +:+ "/symbol/" +:+ str_lower ticker +:+ "/insider-trades".

Definition quotes_div : selector :=
  Selector (Some "div") (Some "quotes_content_left_pnlAJAX") None.

Definition trades_div : selector :=
  Selector (Some "div") None (Some "genTable").

(** [s'] differs from [s] by the log entries [ws] only. *)
Definition logged (ws : list log_entry) (s s' : state) : Prop :=
  s' = State (web s) (committed s) (working s) (pending s) (dirty s)
             (log s ++ ws) (trace s).

End Specs.

(** ** Example inputs *)

Section Examples.
Local Existing Instance ExampleLib.lib.

(** A page without any of the elements the parser looks for. *)
Definition page_without_link : node := Tag "html" [] [].

(** A page whose only element is the "last page" link. *)
Definition page_with_link (href : string) : node :=
  Tag "html" []
    [Tag "a" [("id", "quotes_content_left_lb_LastPage"); ("href", href)] []].

Definition td (text : string) : node := Tag "td" [] [NavigableString text].

Definition trade_cells : list string :=
  ["DOE JOHN"; "Officer"; "01/02/2019"; "Sell"; "direct"; "1,000"; "";
   "5,000"].

Definition history_cells : list string :=
  ["01/02/2019"; "1,000"; "2"; "3"; "4"; "5,000,000"].

(** An insider-trades page with one page of one trade. *)
Definition trades_page : node :=
  Tag "html" []
    [Tag "a" [("id", "quotes_content_left_lb_LastPage");
              ("href", "/symbol/aapl/insider-trades?page=1")] [];
     Tag "div" [("class", "genTable hello")]
       [Tag "table" [] [Tag "tr" [] (map td trade_cells)]]].

(** A site that answers every request with the same page. *)
Definition site_of (page : node) : string -> list (string * Z) -> result node :=
  fun _ _ => Ok page.

Definition fresh (page : node) : state := initial_state (site_of page).


Definition insider_v1 : row :=
  <["name" := VStr "DOE JOHN"]> (<["relation" := VStr "Officer"]> ∅).

Definition insider_v2 : row :=
  <["name" := VStr "DOE JOHN"]> (<["relation" := VStr "Director"]> ∅).

(** The states after a first and a second upsert of the same insider. *)
Definition insider_once : state :=
  Eval vm_compute in
    snd (upsert Insider insider_v1 ["name"] (fresh page_without_link)).

Definition insider_twice : state :=
  Eval vm_compute in snd (upsert Insider insider_v2 ["name"] insider_once).


(** The container of the trades table of [trades_page]. *)
Definition trades_container : node :=
  Tag "div" [("class", "genTable hello")]
    [Tag "table" [] [Tag "tr" [] (map td trade_cells)]].

(** A history page with one row. *)
Definition history_page : node :=
  Tag "html" []
    [Tag "div" [("id", "quotes_content_left_pnlAJAX")]
       [Tag "table" []
          [Tag "tbody" [] [Tag "tr" [] (map td history_cells)]]]].

(** The same page with the row placed directly in the table. *)
Definition history_page_without_tbody : node :=
  Tag "html" []
    [Tag "div" [("id", "quotes_content_left_pnlAJAX")]
       [Tag "table" [] [Tag "tr" [] (map td history_cells)]]].

(** [trades_page] with the row wrapped in a [tbody]. *)
Definition wrapped_trades_page : node :=
  Tag "html" []
    [Tag "a" [("id", "quotes_content_left_lb_LastPage");
              ("href", "/symbol/aapl/insider-trades?page=1")] [];
     Tag "div" [("class", "genTable hello")]
       [Tag "table" []
          [Tag "tbody" [] [Tag "tr" [] (map td trade_cells)]]]].

(** A site that answers every request with an error. *)
Definition site_down : string -> list (string * Z) -> result node :=
  fun _ _ => Raise (HTTPError "503").

(** The states after one and two runs of the trades task of page 1, after
    a run of the trades task of page 2, and after one and two runs of the
    history task. *)
Definition trades_once : state :=
  Eval vm_compute in snd (fetch_trades "AAPL" 1 (fresh trades_page)).

Definition trades_twice : state :=
  Eval vm_compute in snd (fetch_trades "AAPL" 1 trades_once).

Definition trades_beyond : state :=
  Eval vm_compute in snd (fetch_trades "AAPL" 2 (fresh trades_page)).

Definition history_once : state :=
  Eval vm_compute in snd (fetch_history "AAPL" (fresh history_page)).

Definition history_twice : state :=
  Eval vm_compute in snd (fetch_history "AAPL" history_once).

End Examples.

(** ** Proofs *)

Ltac monad_unfold :=
  unfold bind, ret, raise, try_except, lift, gets, modify, logger in *.

Ltac monad_simpl := repeat progress (monad_unfold; simpl in *).

Section Proofs.
Context `{PyLib}.

Lemma logged_nil s : logged [] s s.
Proof. unfold logged. rewrite app_nil_r. by destruct s. Qed.

Lemma logged_cons w ws s s' :
  logged ws (add_log w s) s' -> logged (w :: ws) s s'.
Proof.
  unfold logged, add_log. simpl. intros ->. by rewrite <- app_assoc.
Qed.

Lemma spec_history_record_length r :
  length r ≠ 6%nat -> spec_history_record r = None.
Proof.
  intros Hlen. unfold spec_history_record.
  do 7 (destruct r as [|? r]; try done).
Qed.

(** One turn of the history loop agrees with the specification's record. *)
Lemma history_item_spec r s :
  length r = 6%nat ->
  match spec_history_record r with
  | Some item => history_item r s = (Ok item, s)
  | None => ∃ t, history_item r s = (Raise (ValueError t), s)
  end.
Proof.
  intros Hlen.
  do 7 (destruct r as [|? r]; try done).
  unfold spec_history_record, history_item, date_, float_, cell. simpl.
  monad_unfold.
  repeat (match goal with
          | |- context [date_parse ?x] => destruct (date_parse x); simpl
          | |- context [py_float ?x] => destruct (py_float x); simpl
          end; eauto).
Qed.


Lemma spec_trade_record_length r :
  length r ≠ 8%nat -> spec_trade_record r = None.
Proof.
  intros Hlen. unfold spec_trade_record.
  do 9 (destruct r as [|? r]; try done).
Qed.

Lemma trade_item_spec r s :
  length r = 8%nat ->
  match spec_trade_record r with
  | Some item => trade_item r s = (Ok item, s)
  | None => ∃ t, trade_item r s = (Raise (ValueError t), s)
  end.
Proof.
  intros Hlen.
  do 9 (destruct r as [|? r]; try done).
  unfold spec_trade_record, trade_item, date_, float_, cell. simpl.
  monad_unfold.
  repeat (match goal with
          | |- context [date_parse ?x] => destruct (date_parse x); simpl
          | |- context [py_float ?x] => destruct (py_float x); simpl
          | |- context [decide ?x] => destruct (decide x); simpl
          end; eauto).
Qed.

(** The trades loop never raises and keeps the records of the rows that
    convert, in order. *)
Lemma parse_trades_rows_spec ticker page table acc s :
  ∃ ws s',
    parse_trades_rows ticker page table acc s
      = (Ok (acc ++ omap spec_trade_record table), s')
    ∧ logged ws s s'.
Proof.
  revert acc s. induction table as [|r table IH]; intros acc s; simpl.
  { exists [], s. rewrite app_nil_r. split; [done | apply logged_nil]. }
  destruct (decide (length r ≠ 8%nat)) as [Hne|Heq].
  - rewrite (spec_trade_record_length r Hne).
    edestruct IH as (ws & s' & Hrun & Hlog).
    eexists (_ :: ws), s'. monad_unfold. simpl. rewrite Hrun.
    split; [done | by apply logged_cons].
  - assert (length r = 8%nat) as Hlen by lia.
    pose proof (trade_item_spec r s Hlen) as Hitem.
    destruct (spec_trade_record r) as [item|].
    + destruct (IH (acc ++ [item]) s) as (ws & s' & Hrun & Hlog).
      exists ws, s'. monad_unfold. rewrite Hitem. simpl. rewrite Hrun.
      by rewrite <- app_assoc.
    + destruct Hitem as [t Hitem].
      edestruct IH as (ws & s' & Hrun & Hlog).
      eexists (_ :: ws), s'. monad_unfold. rewrite Hitem. simpl.
      rewrite Hrun. split; [done | by apply logged_cons].
Qed.


(** C6, as the code has it.  [parse_trades_page_count] raises
    [ParsingError] when the page has no "last page" link.  When the link is
    there, it returns the integer that int() reads from the first [page]
    value of the query string of the link's href, raises [ValueError] when
    int() rejects that value, and returns 1 (what int("1") gives) when the
    query string has no [page] parameter, which includes a link without
    href. *)
Theorem parse_trades_page_count_cases page_dom s :
  (dom_find last_page_link page_dom = None ->
     parse_trades_page_count page_dom s
       = (Raise (ParsingError last_page_link), s))
  ∧ (∀ link p ps n,
       dom_find last_page_link page_dom = Some link ->
       assoc "page" (link_query link) = Some (p :: ps) ->
       py_int p = Some n ->
       parse_trades_page_count page_dom s = (Ok n, s))
  ∧ (∀ link p ps,
       dom_find last_page_link page_dom = Some link ->
       assoc "page" (link_query link) = Some (p :: ps) ->
       py_int p = None ->
       parse_trades_page_count page_dom s = (Raise (ValueError p), s))
  ∧ (∀ link,
       dom_find last_page_link page_dom = Some link ->
       assoc "page" (link_query link) = None ->
       py_int "1" = Some 1 ->
       parse_trades_page_count page_dom s = (Ok 1, s)).
Proof.
  unfold parse_trades_page_count, find_tag, link_query, int_.
  fold last_page_link. monad_unfold.
  repeat split.
  - by intros ->.
  - intros link p ps n -> Hq Hp. simpl. rewrite Hq. simpl. by rewrite Hp.
  - intros link p ps -> Hq Hp. simpl. rewrite Hq. simpl. by rewrite Hp.
  - intros link -> Hq Hp. simpl. rewrite Hq. simpl. by rewrite Hp.
Qed.

(** *** The session primitives on a session without pending work *)

Lemma flush_idle s :
  pending s = [] -> dirty s = [] -> session_flush s = (Ok [], s).
Proof.
  destruct s as [w c wk p d lg tr]. simpl. intros -> ->. reflexivity.
Qed.

Lemma commit_idle s :
  pending s = [] -> dirty s = [] -> session_commit s = (Ok tt, after_commit s).
Proof.
  intros Hp Hd. unfold session_commit. monad_unfold.
  rewrite (flush_idle s Hp Hd).
  destruct s as [w c wk p d lg tr]. simpl in *. by subst.
Qed.

Lemma rollback_run s : session_rollback s = (Ok tt, after_rollback s).
Proof. reflexivity. Qed.

Lemma query_first_idle m kf s :
  pending s = [] -> dirty s = [] ->
  query_first m kf s = (Ok (head (resident m kf (working s))), s).
Proof.
  intros Hp Hd. unfold query_first. monad_unfold.
  by rewrite (flush_idle s Hp Hd).
Qed.

Lemma select_keys_run data keys s :
  (∀ k, k ∈ keys -> is_Some (data !! k)) ->
  select_keys data keys s = (Ok (key_fields data keys), s).
Proof.
  induction keys as [|k keys IH]; intros Hk; simpl; [done|].
  destruct (Hk k) as [v Hv]; [by left|].
  rewrite Hv. monad_unfold. rewrite IH.
  - unfold get. by rewrite Hv.
  - intros k' Hin. apply Hk. by right.
Qed.

Lemma select_keys_missing data keys s :
  ¬ (∀ k, k ∈ keys -> is_Some (data !! k)) ->
  ∃ k, select_keys data keys s = (Raise (KeyError k), s).
Proof.
  induction keys as [|k keys IH]; intros Hk; simpl.
  - exfalso. apply Hk. intros k Hin. by apply elem_of_nil in Hin.
  - destruct (data !! k) as [v|] eqn:Hv; [|by eexists].
    destruct IH as [k' Hrun].
    + intros Hall. apply Hk. intros k' [->|Hin]%elem_of_cons; eauto.
    + exists k'. monad_unfold. by rewrite Hrun.
Qed.

Lemma construct_run m data s :
  (∀ k, is_Some (data !! k) -> k ∈ columns m) ->
  construct m data s = (Ok data, s).
Proof.
  intros Hcols. unfold construct.
  destruct (List.find _ _) as [k|] eqn:Hfind; [|done].
  apply find_some in Hfind as [Hin Hbad].
  apply bool_decide_eq_true in Hbad. exfalso. apply Hbad, Hcols.
  apply list_elem_of_In, list_elem_of_fmap in Hin as [[k' v] [-> Hin]].
  apply elem_of_map_to_list in Hin. eauto.
Qed.

(** *** Stepping through monadic code *)

Lemma bind_ok {S A B} (c : M S A) (k : A -> M S B) s a s' :
  c s = (Ok a, s') -> bind c k s = k a s'.
Proof. unfold bind. by intros ->. Qed.

Lemma bind_raise {S A B} (c : M S A) (k : A -> M S B) s e s' :
  c s = (Raise e, s') -> bind c k s = (Raise e, s').
Proof. unfold bind. by intros ->. Qed.

Lemma try_ok {S A} (c : M S A) catches h s a s' :
  c s = (Ok a, s') -> try_except c catches h s = (Ok a, s').
Proof. unfold try_except. by intros ->. Qed.

Lemma try_caught {S A} (c : M S A) catches h s e s' :
  c s = (Raise e, s') -> catches e = true ->
  try_except c catches h s = h e s'.
Proof. unfold try_except. by intros -> ->. Qed.

(** *** Statements on an idle session *)

Lemma insert_row_inv m r s res s' :
  insert_row m r s = (res, s') ->
  (check_row m (with_default_id (table_of m (working s)) r)
             (rows (table_of m (working s))) = None
   ∧ res = Ok (with_default_id (table_of m (working s)) r)
   ∧ s' = add_trace
            (SqlInsert m (with_default_id (table_of m (working s)) r))
            (set_working
               (set_table m
                  (Table (rows (table_of m (working s))
                            ++ [with_default_id (table_of m (working s)) r])
                         (next_id (table_of m (working s)) + 1))
                  (working s))
               s))
  ∨ (∃ v, check_row m (with_default_id (table_of m (working s)) r)
                    (rows (table_of m (working s))) = Some v
          ∧ res = Raise (IntegrityError v) ∧ s' = s).
Proof.
  unfold insert_row. destruct (check_row _ _ _) as [v|] eqn:Hc.
  - intros [= <- <-]. right. eauto.
  - intros [= <- <-]. left. eauto.
Qed.

Lemma add_flush_ok m r s r1 s1 :
  pending s = [] -> dirty s = [] ->
  insert_row m r s = (Ok r1, s1) ->
  (do session_add m r then
   let* flushed := session_flush in
   ret (last flushed)) s = (Ok (Some r1), s1)
  ∧ pending s1 = [] ∧ dirty s1 = [].
Proof.
  intros Hp Hd Hins.
  destruct s as [w c wk p d lg tr]. simpl in *. subst.
  unfold session_add, session_flush. monad_unfold. simpl.
  unfold insert_row in *. monad_unfold. simpl in *.
  destruct (check_row _ _ _); by simplify_eq.
Qed.

Lemma add_flush_fail m r s e s1 :
  pending s = [] -> dirty s = [] ->
  insert_row m r s = (Raise e, s1) ->
  (do session_add m r then
   let* flushed := session_flush in
   ret (last flushed)) s = (Raise e, set_pending [(m, r)] s).
Proof.
  intros Hp Hd Hins.
  destruct s as [w c wk p d lg tr]. simpl in *. subst.
  unfold session_add, session_flush. monad_unfold. simpl.
  unfold insert_row in *. monad_unfold. simpl in *.
  destruct (check_row _ _ _); by simplify_eq.
Qed.

Lemma update_row_inv m identity r s res s' :
  update_row m identity r s = (res, s') ->
  (check_row m r (filter (fun x => get "id" x ≠ identity)
                         (rows (table_of m (working s)))) = None
   ∧ res = Ok tt
   ∧ s' = add_trace (SqlUpdate m r)
            (set_working
               (set_table m
                  (Table (map (fun x => if decide (get "id" x = identity)
                                        then r else x)
                              (rows (table_of m (working s))))
                         (next_id (table_of m (working s))))
                  (working s))
               s))
  ∨ (∃ v, check_row m r (filter (fun x => get "id" x ≠ identity)
                                (rows (table_of m (working s)))) = Some v
          ∧ res = Raise (IntegrityError v) ∧ s' = s).
Proof.
  unfold update_row. destruct (check_row _ _ _) as [v|] eqn:Hc.
  - intros [= <- <-]. right. eauto.
  - intros [= <- <-]. left. eauto.
Qed.

(** A commit whose only pending work is one modified object. *)
Lemma commit_one_dirty m identity r s :
  pending s = [] ->
  session_commit (set_dirty [(m, identity, r)] s)
  = match update_row m identity r s with
    | (Ok _, s2) => (Ok tt, after_commit s2)
    | (Raise e, s2) => (Raise e, set_dirty [(m, identity, r)] s2)
    end.
Proof.
  intros Hp. destruct s as [w c wk p d lg tr]. simpl in *. subst.
  unfold session_commit, session_flush. monad_simpl.
  unfold update_row. monad_simpl.
  by destruct (check_row _ _ _).
Qed.

(** The attribute loop over a found object. *)
Lemma setattr_items_found m identity r items s :
  items ≠ [] ->
  filter (fun e => ¬ (e.1.1 = m ∧ e.1.2 = identity)) (dirty s) = [] ->
  setattr_items m identity (Some r) items s
  = (Ok (Some (foldl (fun acc kv => <[kv.1 := kv.2]> acc) r items)),
     set_dirty
       [(m, identity, foldl (fun acc kv => <[kv.1 := kv.2]> acc) r items)] s).
Proof.
  revert r s. induction items as [|[k v] items IH]; intros r s Hne Hd; [done|].
  simpl. unfold setattr. monad_unfold. simpl.
  destruct items as [|kv items].
  - simpl. unfold mark_dirty. by rewrite Hd.
  - rewrite IH; [|done|].
    + unfold mark_dirty. rewrite Hd. by destruct s.
    + unfold mark_dirty. destruct s; simpl in *. rewrite Hd. simpl.
      rewrite filter_cons_False; [done|]. simpl. naive_solver.
Qed.

Lemma setattr_items_missing m identity kv items s :
  setattr_items m identity None (kv :: items) s = (Raise AttributeError, s).
Proof. by destruct kv. Qed.

(** Assigning the items of a dict one by one overwrites exactly its keys. *)
Lemma foldl_insert_items (data r : row) :
  foldl (fun acc kv => <[kv.1 := kv.2]> acc) r (map_to_list data) = data ∪ r.
Proof.
  pose proof (NoDup_fst_map_to_list data) as Hnd.
  rewrite <- (list_to_map_to_list data) at 2.
  revert r Hnd. generalize (map_to_list data) as l.
  induction l as [|[k v] l IH]; intros r Hnd; csimpl.
  - by rewrite (left_id_L ∅ (∪)).
  - apply NoDup_cons in Hnd as [Hk Hnd]. rewrite IH by done.
    apply map_eq. intros i. rewrite !lookup_union.
    destruct (decide (k = i)) as [->|Hne].
    + rewrite (not_elem_of_list_to_map_1 l i) by done.
      rewrite !lookup_insert_eq. by destruct (r !! i).
    + by rewrite !lookup_insert_ne.
Qed.

(** *** The paths through [upsert] *)

Section UpsertRuns.
Variables (m : model) (data : row) (keys : list string) (s : state).
Hypothesis Hclean : clean s.
Hypothesis Hkeys : ∀ k, k ∈ keys -> is_Some (data !! k).
Hypothesis Hcols : ∀ k, is_Some (data !! k) -> k ∈ columns m.

(** The INSERT goes through. *)
Lemma upsert_inserted r1 s1 :
  insert_row m data s = (Ok r1, s1) ->
  upsert m data keys s = (Ok (Some r1), after_commit s1).
Proof.
  intros Hins. destruct Hclean as (Hp & Hd & Hw).
  destruct (add_flush_ok m data s r1 s1 Hp Hd Hins) as (Hrun & Hp1 & Hd1).
  unfold upsert.
  rewrite (bind_ok _ _ _ _ _ (select_keys_run data keys s Hkeys)).
  rewrite (bind_ok _ _ _ _ _ (construct_run m data s Hcols)).
  rewrite (bind_ok _ _ _ _ _ (try_ok _ _ _ _ _ _ Hrun)).
  by rewrite (bind_ok _ _ _ _ _ (commit_idle s1 Hp1 Hd1)).
Qed.

(** The INSERT violates a constraint. *)
Lemma upsert_conflict v s1 :
  insert_row m data s = (Raise (IntegrityError v), s1) ->
  data ≠ ∅ ->
  upsert m data keys s
  = match head (resident m (key_fields data keys) (committed s)) with
    | None => (Raise AttributeError, after_rollback s)
    | Some old =>
        match update_row m (get "id" old) (data ∪ old) (after_rollback s) with
        | (Ok _, s2) => (Ok (Some (data ∪ old)), after_commit s2)
        | (Raise e, s2) =>
            (Raise e, set_dirty [(m, get "id" old, data ∪ old)] s2)
        end
    end.
Proof.
  intros Hins Hne. destruct Hclean as (Hp & Hd & Hw).
  pose proof (add_flush_fail m data s _ s1 Hp Hd Hins) as Hrun.
  unfold upsert.
  rewrite (bind_ok _ _ _ _ _ (select_keys_run data keys s Hkeys)).
  rewrite (bind_ok _ _ _ _ _ (construct_run m data s Hcols)).
  assert (map_to_list data ≠ []) as Hitems
    by (by intros ?%map_to_list_empty_iff).
  assert (after_rollback (set_pending [(m, data)] s) = after_rollback s)
    as Hrb by (by destruct s).
  destruct (head (resident m (key_fields data keys) (committed s)))
    as [old|] eqn:Hhead.
  - erewrite bind_ok; cycle 1.
    { erewrite try_caught; [|exact Hrun|done].
      rewrite (bind_ok _ _ _ _ _ (rollback_run _)), Hrb.
      erewrite bind_ok; [|by apply query_first_idle].
      simpl. rewrite Hhead. simpl.
      by apply setattr_items_found. }
    rewrite foldl_insert_items.
    unfold bind at 1. rewrite commit_one_dirty by done.
    by destruct (update_row _ _ _ _) as [[[]|e] s2].
  - erewrite bind_raise; [done|].
    erewrite try_caught; [|exact Hrun|done].
    rewrite (bind_ok _ _ _ _ _ (rollback_run _)), Hrb.
    erewrite bind_ok; [|by apply query_first_idle].
    simpl. rewrite Hhead.
    destruct (map_to_list data) as [|kv items]; [done|].
    apply setattr_items_missing.
Qed.

End UpsertRuns.

(** *** Constraint checks *)

Lemma find_None {A} (f : A -> bool) (l : list A) :
  List.find f l = None ↔ ∀ x, x ∈ l -> f x = false.
Proof.
  induction l as [|a l IH]; simpl.
  - split; [|done]. intros _ x Hin. by apply elem_of_nil in Hin.
  - destruct (f a) eqn:Hfa.
    + split; [done|]. intros Hall. rewrite Hall in Hfa; [done | by left].
    + rewrite IH. split.
      * intros Hall x [->|Hin]%elem_of_cons; auto.
      * intros Hall x Hin. apply Hall. by right.
Qed.

Lemma existsb_false {A} (f : A -> bool) (l : list A) :
  existsb f l = false ↔ ∀ x, x ∈ l -> f x = false.
Proof.
  induction l as [|a l IH]; simpl.
  - split; [|done]. intros _ x Hin. by apply elem_of_nil in Hin.
  - rewrite orb_false_iff, IH. split.
    + intros [Ha Hall] x [->|Hin]%elem_of_cons; auto.
    + intros Hall. split; [apply Hall; by left|].
      intros x Hin. apply Hall. by right.
Qed.


Lemma agree_spec c (r1 r2 : row) :
  agree c r1 r2 = true
  ↔ ∀ k, k ∈ c -> get k r1 ≠ VNone ∧ get k r1 = get k r2.
Proof.
  unfold agree. rewrite forallb_forall. split.
  - intros Hall k Hin. apply list_elem_of_In, Hall in Hin.
    apply andb_true_iff in Hin as [H1 H2].
    by apply bool_decide_eq_true in H1, H2.
  - intros Hall k Hin. apply list_elem_of_In, Hall in Hin as [H1 H2].
    apply andb_true_iff. by rewrite !bool_decide_eq_true.
Qed.

Lemma agree_sym c (r1 r2 : row) :
  agree c r1 r2 = true -> agree c r2 r1 = true.
Proof.
  rewrite !agree_spec. intros Hall k Hin.
  destruct (Hall k Hin) as [H1 H2]. split; congruence.
Qed.

Lemma agree_false_sym c (r1 r2 : row) :
  agree c r1 r2 = false -> agree c r2 r1 = false.
Proof.
  intros Hf. destruct (agree c r2 r1) eqn:Ha; [|done].
  apply agree_sym in Ha. congruence.
Qed.

Lemma check_not_null_None m (r : row) :
  check_not_null m r = None ↔ ∀ k, k ∈ not_null m -> get k r ≠ VNone.
Proof.
  unfold check_not_null. rewrite find_None.
  split; intros Hall k Hin; specialize (Hall k Hin).
  - by apply bool_decide_eq_false in Hall.
  - by apply bool_decide_eq_false.
Qed.

Lemma check_unique_None m (r : row) l :
  check_unique m r l = None
  ↔ ∀ c, c ∈ unique_constraints m -> ∀ x, x ∈ l -> agree c r x = false.
Proof.
  unfold check_unique. rewrite find_None.
  split; intros Hall c Hin; specialize (Hall c Hin);
    by apply existsb_false.
Qed.

Lemma check_row_None m (r : row) l :
  check_row m r l = None
  ↔ check_not_null m r = None ∧ check_unique m r l = None.
Proof.
  unfold check_row. destruct (check_not_null m r); [naive_solver|].
  destruct (check_unique m r l); naive_solver.
Qed.


Lemma get_insert k k' v (r : row) :
  get k (<[k' := v]> r) = if decide (k' = k) then v else get k r.
Proof. unfold get. rewrite lookup_insert. by destruct (decide (k' = k)). Qed.

Lemma get_union k (d r : row) :
  get k (d ∪ r) = match d !! k with Some v => v | None => get k r end.
Proof. unfold get. rewrite lookup_union. by destruct (d !! k), (r !! k). Qed.

Lemma get_with_default_id t (r : row) k :
  k ≠ "id" -> get k (with_default_id t r) = get k r.
Proof.
  intros Hk. unfold with_default_id.
  destruct (get "id" r); try done.
  rewrite get_insert. by destruct (decide ("id" = k)).
Qed.

Lemma table_of_set_table m m' t d :
  table_of m' (set_table m t d) = if decide (m = m') then t else table_of m' d.
Proof. by destruct m, m'. Qed.

Lemma id_not_null m : "id" ∈ not_null m.
Proof. destruct m; by left. Qed.

Lemma id_unique m : ["id"] ∈ unique_constraints m.
Proof. by left. Qed.

Lemma natural_key_unique m c :
  natural_key m = Some c -> c ∈ unique_constraints m.
Proof. unfold unique_constraints. intros ->. right. by left. Qed.

Lemma natural_key_not_null m c k :
  natural_key m = Some c -> k ∈ c -> k ∈ not_null m ∧ k ≠ "id".
Proof.
  destruct m; intros [= <-] Hin;
    repeat (apply elem_of_cons in Hin as [->|Hin];
            [split; [set_solver | done]|]);
    by apply elem_of_nil in Hin.
Qed.

Lemma natural_key_nonempty m c : natural_key m = Some c -> c ≠ [].
Proof. by destruct m; intros [= <-]. Qed.

(** *** Statements that pass the checks keep the tables consistent *)

Lemma table_ok_insert m t (r1 : row) n :
  table_ok m t ->
  check_row m r1 (rows t) = None ->
  table_ok m (Table (rows t ++ [r1]) n).
Proof.
  intros [Hnn Hun] [Hc1 Hc2]%check_row_None. split; simpl.
  - intros r [Hin| ->%list_elem_of_singleton]%elem_of_app; auto.
  - intros c Hc i j ri rj Hi Hj Hagree.
    pose proof (proj1 (check_unique_None m r1 (rows t)) Hc2 c Hc) as Hnew.
    apply lookup_app_Some in Hi as [Hi|[Hi1 Hi2]];
      apply lookup_app_Some in Hj as [Hj|[Hj1 Hj2]].
    + by apply (Hun c Hc i j ri rj).
    + apply list_lookup_singleton_Some in Hj2 as [_ <-].
      apply agree_sym in Hagree. rewrite Hnew in Hagree; [done|].
      by eapply list_elem_of_lookup_2.
    + apply list_lookup_singleton_Some in Hi2 as [_ <-].
      rewrite Hnew in Hagree; [done|]. by eapply list_elem_of_lookup_2.
    + apply list_lookup_singleton_Some in Hi2 as [? _].
      apply list_lookup_singleton_Some in Hj2 as [? _]. lia.
Qed.

Lemma table_ok_update m t identity (r : row) n :
  table_ok m t ->
  check_row m r (filter (fun x => get "id" x ≠ identity) (rows t)) = None ->
  table_ok m
    (Table (map (fun x => if decide (get "id" x = identity) then r else x)
                (rows t)) n).
Proof.
  intros [Hnn Hun] [Hc1 Hc2]%check_row_None. split; simpl.
  - intros x (y & -> & Hy)%list_elem_of_fmap.
    destruct (decide _); auto.
  - intros c Hc i j ri rj Hi Hj Hagree.
    pose proof (proj1 (check_unique_None _ _ _) Hc2 c Hc) as Hnew.
    apply list_lookup_fmap_Some in Hi as (xi & -> & Hi).
    apply list_lookup_fmap_Some in Hj as (xj & -> & Hj).
    assert (xi ∈ rows t) as Hini by (by eapply list_elem_of_lookup_2).
    assert (xj ∈ rows t) as Hinj by (by eapply list_elem_of_lookup_2).
    destruct (decide (get "id" xi = identity)) as [Hidi|Hidi];
      destruct (decide (get "id" xj = identity)) as [Hidj|Hidj].
    + apply (Hun ["id"] (id_unique m) i j xi xj Hi Hj).
      apply agree_spec. intros k ->%list_elem_of_singleton.
      split; [|congruence].
      by apply (proj1 (check_not_null_None m xi) (Hnn xi Hini)), id_not_null.
    + rewrite Hnew in Hagree; [done|]. by apply list_elem_of_filter.
    + apply agree_sym in Hagree.
      rewrite Hnew in Hagree; [done|]. by apply list_elem_of_filter.
    + by apply (Hun c Hc i j xi xj).
Qed.

Lemma database_ok_set_table m t d :
  database_ok d -> table_ok m t -> database_ok (set_table m t d).
Proof.
  intros Hd Ht m'. rewrite table_of_set_table.
  destruct (decide (m = m')) as [<-|]; auto.
Qed.

Lemma insert_row_ok m r s r1 s1 :
  database_ok (working s) ->
  insert_row m r s = (Ok r1, s1) ->
  database_ok (working s1).
Proof.
  intros Hok Hins.
  apply insert_row_inv in Hins as [(Hc & _ & ->)|(v & _ & [=] & _)].
  simpl. apply database_ok_set_table; [done|].
  by apply table_ok_insert.
Qed.

Lemma update_row_ok m identity r s s1 :
  database_ok (working s) ->
  update_row m identity r s = (Ok tt, s1) ->
  database_ok (working s1).
Proof.
  intros Hok Hupd.
  apply update_row_inv in Hupd as [(Hc & _ & ->)|(v & _ & [=] & _)].
  simpl. apply database_ok_set_table; [done|].
  by apply table_ok_update.
Qed.

(** *** The conflicting row and its update *)

Lemma matches_keys_spec data keys (r : row) :
  matches_keys (key_fields data keys) r = true
  ↔ ∀ k, k ∈ keys -> get k r = get k data.
Proof.
  unfold matches_keys, key_fields. rewrite forallb_forall. split.
  - intros Hall k Hin.
    assert (In (k, get k data) (map (fun k => (k, get k data)) keys)) as Hkv.
    { apply in_map_iff. exists k. split; [done | by apply list_elem_of_In]. }
    apply Hall in Hkv. by apply bool_decide_eq_true in Hkv.
  - intros Hall kv (k & <- & Hin)%in_map_iff. simpl.
    apply bool_decide_eq_true, Hall, list_elem_of_In, Hin.
Qed.

Lemma head_filter_Some {A} (P : A -> Prop) `{!∀ x, Decision (P x)} l x :
  x ∈ l -> P x -> ∃ y, head (filter P l) = Some y.
Proof.
  intros Hin HP.
  destruct (filter P l) as [|y l'] eqn:Hf; [|by eexists].
  assert (x ∈ filter P l) as Hx by (by apply list_elem_of_filter).
  rewrite Hf in Hx. by apply elem_of_nil in Hx.
Qed.

Lemma head_filter_inv {A} (P : A -> Prop) `{!∀ x, Decision (P x)} l y :
  head (filter P l) = Some y -> y ∈ l ∧ P y.
Proof.
  intros Hh. apply head_Some in Hh as [l' Hl'].
  assert (y ∈ filter P l) as Hy by (rewrite Hl'; by left).
  apply list_elem_of_filter in Hy. naive_solver.
Qed.


Lemma get_union_absent k (d r : row) :
  d !! k = None -> get k (d ∪ r) = get k r.
Proof. rewrite get_union. by intros ->. Qed.



(** *** Theorems about [upsert] *)

Lemma keys_present_nonempty (data : row) keys :
  keys ≠ [] -> (∀ k, k ∈ keys -> is_Some (data !! k)) -> data ≠ ∅.
Proof.
  intros Hne Hkeys ->. destruct keys as [|k keys]; [done|].
  destruct (Hkeys k) as [v Hv]; [by left|]. by rewrite lookup_empty in Hv.
Qed.

Lemma perm_nonempty {A} (l1 l2 : list A) : l1 ≡ₚ l2 -> l2 ≠ [] -> l1 ≠ [].
Proof. intros Hp Hne ->. by apply Permutation_nil_l in Hp. Qed.

Section UpsertPaths.
Variables (m : model) (data : row) (keys c : list string) (s : state).
Hypothesis Hclean : clean s.
Hypothesis Hok : database_ok (committed s).
Hypothesis Hnk : natural_key m = Some c.
Hypothesis Hperm : keys ≡ₚ c.
Hypothesis Hkeys : ∀ k, k ∈ keys -> is_Some (data !! k).
Hypothesis Hcols : ∀ k, is_Some (data !! k) -> k ∈ columns m.
Hypothesis Hid : data !! "id" = None.



End UpsertPaths.


(** C10. In the conflict branch the looked-up record is used without a
    presence check.  For a call with a non-empty key whose INSERT raised an
    integrity error: when no resident record matches the key fields, the
    field-overwrite step fails on the missing record ([AttributeError], with
    nothing committed); and whenever [upsert] does return, a resident
    record matching the key fields was found and the result is that record
    with the payload's fields overwritten. *)
Theorem upsert_lookup_unchecked m data keys s v s1 :
  clean s ->
  keys ≠ [] ->
  (∀ k, k ∈ keys -> is_Some (data !! k)) ->
  (∀ k, is_Some (data !! k) -> k ∈ columns m) ->
  insert_row m data s = (Raise (IntegrityError v), s1) ->
  (resident m (key_fields data keys) (committed s) = [] ->
     upsert m data keys s = (Raise AttributeError, after_rollback s)
     ∧ committed (after_rollback s) = committed s)
  ∧ (∀ instance s',
       upsert m data keys s = (Ok instance, s') ->
       ∃ old,
         old ∈ resident m (key_fields data keys) (committed s)
         ∧ instance = Some (data ∪ old)).
Proof.
  intros Hclean Hne Hkeys Hcols Hins.
  pose proof (keys_present_nonempty data keys Hne Hkeys) as Hdata.
  rewrite (upsert_conflict m data keys s Hclean Hkeys Hcols _ _ Hins Hdata).
  split.
  - by intros ->.
  - intros instance s'.
    destruct (resident _ _ _) as [|old l] eqn:Hres; simpl; [done|].
    destruct (update_row _ _ _ _) as [[[]|e] s2]; [|done].
    intros [= <- <-]. exists old. split; [by left | done].
Qed.

(** *** What a returning [upsert] did *)

Lemma construct_inv m data s x s' :
  construct m data s = (Ok x, s') ->
  ∀ k, is_Some (data !! k) -> k ∈ columns m.
Proof.
  unfold construct. destruct (List.find _ _) eqn:Hfind; [done|].
  intros _ k [v Hv].
  pose proof (proj1 (find_None _ _) Hfind k) as Hk.
  destruct (decide (k ∈ columns m)) as [|Hno]; [done|].
  rewrite bool_decide_eq_false in Hk. exfalso. apply Hk; [|done].
  apply list_elem_of_fmap. exists (k, v). split; [done|].
  by apply elem_of_map_to_list.
Qed.

Lemma insert_row_raises m r s e s1 :
  insert_row m r s = (Raise e, s1) -> ∃ v, e = IntegrityError v ∧ s1 = s.
Proof.
  intros [(_ & [=] & _)|(v & _ & [= ->] & ->)]%insert_row_inv. eauto.
Qed.

Lemma upsert_ok_inv m data keys s instance s' :
  clean s -> keys ≠ [] ->
  upsert m data keys s = (Ok instance, s') ->
  (∀ k, k ∈ keys -> is_Some (data !! k))
  ∧ (∀ k, is_Some (data !! k) -> k ∈ columns m)
  ∧ ((∃ r1 s1, insert_row m data s = (Ok r1, s1)
               ∧ instance = Some r1 ∧ s' = after_commit s1)
     ∨ (∃ v old s2,
          insert_row m data s = (Raise (IntegrityError v), s)
          ∧ head (resident m (key_fields data keys) (committed s)) = Some old
          ∧ update_row m (get "id" old) (data ∪ old) (after_rollback s)
            = (Ok tt, s2)
          ∧ instance = Some (data ∪ old) ∧ s' = after_commit s2)).
Proof.
  intros Hclean Hne Hrun.
  assert (∀ k, k ∈ keys -> is_Some (data !! k)) as Hkeys.
  { destruct (decide (Forall (fun k => is_Some (data !! k)) keys))
      as [Hall|Hno]; [by apply Forall_forall|].
    destruct (select_keys_missing data keys s) as [k Hk].
    { intros Hall. by apply Hno, Forall_forall. }
    unfold upsert in Hrun. by rewrite (bind_raise _ _ _ _ _ Hk) in Hrun. }
  assert (∀ k, is_Some (data !! k) -> k ∈ columns m) as Hcols.
  { unfold upsert in Hrun.
    rewrite (bind_ok _ _ _ _ _ (select_keys_run data keys s Hkeys)) in Hrun.
    destruct (construct m data s) as [[x|e] sx] eqn:Hc.
    - by eapply construct_inv.
    - by rewrite (bind_raise _ _ _ _ _ Hc) in Hrun. }
  split; [done|]. split; [done|].
  destruct (insert_row m data s) as [[r1|e] s1] eqn:Hins.
  - left. rewrite (upsert_inserted m data keys s Hclean Hkeys Hcols _ _ Hins)
      in Hrun.
    injection Hrun as <- <-. eauto.
  - right. destruct (insert_row_raises _ _ _ _ _ Hins) as (v & -> & ->).
    pose proof (keys_present_nonempty data keys Hne Hkeys) as Hdata.
    rewrite (upsert_conflict m data keys s Hclean Hkeys Hcols _ _ Hins Hdata)
      in Hrun.
    destruct (head _) as [old|]; [|done].
    destruct (update_row _ _ _ _) as [[[]|e] s2] eqn:Hupd; [|done].
    injection Hrun as <- <-. by eexists v, old, s2.
Qed.

Lemma clean_after_commit s : clean (after_commit s).
Proof. done. Qed.

Lemma clean_after_rollback s : clean (after_rollback s).
Proof. done. Qed.

(** After [upsert] has returned, the session is idle again, the database is
    consistent and the returned record is resident under its key fields. *)
Lemma upsert_ok_post m c data keys s instance s' :
  clean s -> database_ok (committed s) ->
  natural_key m = Some c -> keys ≡ₚ c ->
  upsert m data keys s = (Ok instance, s') ->
  clean s' ∧ database_ok (committed s')
  ∧ ∃ rec, instance = Some rec
           ∧ rec ∈ rows (table_of m (committed s'))
           ∧ matches_keys (key_fields data keys) rec = true.
Proof.
  intros Hclean Hok Hnk Hperm Hrun.
  pose proof Hclean as (Hp & Hd & Hw).
  assert (keys ≠ []) as Hne
    by (eapply perm_nonempty; [done | by eapply natural_key_nonempty]).
  destruct (upsert_ok_inv _ _ _ _ _ _ Hclean Hne Hrun)
    as (Hkeys & Hcols & [(r1 & s1 & Hins & -> & ->)
                        |(v & old & s2 & Hins & Hhead & Hupd & -> & ->)]).
  - split; [apply clean_after_commit|]. split.
    { simpl. eapply insert_row_ok; [|done]. by rewrite Hw. }
    exists r1. split; [done|].
    apply insert_row_inv in Hins as [(Hc & [= ->] & ->)|(? & _ & [=] & _)].
    simpl. rewrite table_of_set_table, decide_True by done. simpl.
    split; [apply elem_of_app; right; by left|].
    apply matches_keys_spec. intros k Hk. apply get_with_default_id.
    rewrite Hperm in Hk. by eapply natural_key_not_null.
  - split; [apply clean_after_commit|]. split.
    { simpl. eapply update_row_ok; [|done]. done. }
    exists (data ∪ old). split; [done|].
    apply head_filter_inv in Hhead as [Hold Hmatch%Is_true_true].
    apply update_row_inv in Hupd as [(Hc & _ & ->)|(? & _ & [=] & _)].
    simpl. rewrite table_of_set_table, decide_True by done. simpl.
    split.
    + apply list_elem_of_fmap. exists old. by rewrite decide_True.
    + apply matches_keys_spec. intros k Hk.
      destruct (Hkeys k Hk) as [x Hx].
      rewrite get_union, Hx. unfold get. by rewrite Hx.
Qed.

Lemma filter_singleton {A} (P : A -> Prop) `{!∀ x, Decision (P x)} l x :
  (∀ i j xi xj, l !! i = Some xi -> l !! j = Some xj -> P xi -> P xj -> i = j) ->
  x ∈ l -> P x -> filter P l = [x].
Proof.
  induction l as [|a l IH]; intros Huniq Hin HP.
  { by apply elem_of_nil in Hin. }
  assert (∀ y, y ∈ l -> P a -> ¬ P y) as Hrest.
  { intros y [i Hi]%list_elem_of_lookup Ha Hy.
    by specialize (Huniq 0%nat (S i) a y eq_refl Hi Ha Hy). }
  destruct (decide (P a)) as [Ha|Ha].
  - rewrite filter_cons_True by done.
    assert (x = a) as ->.
    { apply elem_of_cons in Hin as [->|Hin]; [done|].
      by destruct (Hrest x Hin Ha). }
    f_equal. destruct (filter P l) as [|y l'] eqn:Hf; [done|].
    assert (y ∈ filter P l) as Hy by (rewrite Hf; by left).
    apply list_elem_of_filter in Hy as [Hy1 Hy2].
    by destruct (Hrest y Hy2 Ha).
  - rewrite filter_cons_False by done.
    apply IH; [|by apply elem_of_cons in Hin as [->|Hin]|done].
    intros i j xi xj Hi Hj Hxi Hxj.
    by specialize (Huniq (S i) (S j) xi xj Hi Hj Hxi Hxj) as [= ->].
Qed.

(** Two resident rows with the same key fields are one row. *)
Lemma resident_unique m c keys data t i j (xi xj : row) :
  table_ok m t ->
  natural_key m = Some c -> keys ≡ₚ c ->
  rows t !! i = Some xi -> rows t !! j = Some xj ->
  matches_keys (key_fields data keys) xi = true ->
  matches_keys (key_fields data keys) xj = true ->
  i = j.
Proof.
  intros [Hnn Hun] Hnk Hperm Hi Hj Hmi Hmj.
  apply (Hun c (natural_key_unique m c Hnk) i j xi xj Hi Hj).
  apply agree_spec. intros k Hk.
  destruct (natural_key_not_null m c k Hnk Hk) as [Hk1 _].
  split.
  - apply (proj1 (check_not_null_None m xi)); [|done].
    apply Hnn. by eapply list_elem_of_lookup_2.
  - rewrite (proj1 (matches_keys_spec _ _ _) Hmi k) by (by rewrite Hperm).
    by rewrite (proj1 (matches_keys_spec _ _ _) Hmj k) by (by rewrite Hperm).
Qed.

(** An INSERT cannot succeed while a row with the same natural key is
    resident. *)
Lemma insert_row_collides m c keys data s (x : row) r1 s1 :
  natural_key m = Some c -> keys ≡ₚ c ->
  x ∈ rows (table_of m (working s)) ->
  matches_keys (key_fields data keys) x = true ->
  insert_row m data s = (Ok r1, s1) -> False.
Proof.
  intros Hnk Hperm Hx Hmx
    [(Hc & _ & _)|(? & _ & [=] & _)]%insert_row_inv.
  apply check_row_None in Hc as [Hc1 Hc2].
  pose proof (proj1 (check_unique_None _ _ _) Hc2 c
                (natural_key_unique m c Hnk) x Hx) as Hno.
  rewrite (proj2 (agree_spec _ _ _)) in Hno; [done|].
  intros k Hk. destruct (natural_key_not_null m c k Hnk Hk) as [Hk1 Hk2].
  split; [by apply (proj1 (check_not_null_None _ _) Hc1)|].
  rewrite get_with_default_id by done.
  symmetry. apply (proj1 (matches_keys_spec _ _ _) Hmx). by rewrite Hperm.
Qed.

Lemma key_fields_ext (d1 d2 : row) keys :
  (∀ k, k ∈ keys -> d1 !! k = d2 !! k) ->
  key_fields d1 keys = key_fields d2 keys.
Proof.
  intros Heq. unfold key_fields. apply map_ext_in.
  intros k Hk%list_elem_of_In. unfold get. by rewrite Heq.
Qed.

(** C2. Two upserts in a row on the same natural key, with payloads that
    agree on the key fields: when both return, exactly one resident record
    has that natural key, it is the record the second call returned, and
    every field of the second payload has the second payload's value on
    it. *)
Theorem upsert_twice_last_write_wins m c keys d1 d2 s r1 s1 r2 s2 :
  clean s -> database_ok (committed s) ->
  natural_key m = Some c -> keys ≡ₚ c ->
  (∀ k, k ∈ keys -> d1 !! k = d2 !! k) ->
  upsert m d1 keys s = (Ok r1, s1) ->
  upsert m d2 keys s1 = (Ok r2, s2) ->
  ∃ rec,
    resident m (key_fields d2 keys) (committed s2) = [rec]
    ∧ r2 = Some rec
    ∧ (∀ k v, d2 !! k = Some v -> rec !! k = Some v).
Proof.
  intros Hclean Hok Hnk Hperm Hagree Hrun1 Hrun2.
  destruct (upsert_ok_post m c d1 keys s r1 s1 Hclean Hok Hnk Hperm Hrun1)
    as (Hclean1 & Hok1 & x & -> & Hx & Hmx).
  rewrite (key_fields_ext d1 d2 keys Hagree) in Hmx.
  destruct (upsert_ok_post m c d2 keys s1 r2 s2 Hclean1 Hok1 Hnk Hperm Hrun2)
    as (Hclean2 & Hok2 & rec & -> & Hrec & Hmrec).
  exists rec. split; [|split; [done|]].
  - unfold resident. apply filter_singleton.
    + intros i j xi xj Hi Hj Hmi%Is_true_true Hmj%Is_true_true.
      by apply (resident_unique m c keys d2 (table_of m (committed s2))
                  i j xi xj (Hok2 m)).
    + done.
    + by apply Is_true_true.
  - assert (keys ≠ []) as Hne
      by (eapply perm_nonempty; [done | by eapply natural_key_nonempty]).
    destruct (upsert_ok_inv _ _ _ _ _ _ Hclean1 Hne Hrun2)
      as (_ & _ & [(r & s' & Hins & _ & _)
                  |(viol & old & s' & _ & _ & _ & [= ->] & _)]).
    + exfalso. destruct Hclean1 as (_ & _ & Hw1).
      eapply (insert_row_collides m c keys d2 s1 x); try done.
      by rewrite Hw1.
    + intros k v Hk. by apply lookup_union_Some_l.
Qed.

(** *** Statements of the tasks always go through on a consistent state *)







Lemma session_add_run m r s :
  session_add m r s = (Ok tt, set_pending (pending s ++ [(m, r)]) s).
Proof. reflexivity. Qed.

(** [session.add(instance); session.commit()] of a new object. *)
Lemma add_commit_run m r s :
  pending s = [] -> dirty s = [] ->
  (do session_add m r then session_commit) s
  = match insert_row m r s with
    | (Ok _, s1) => (Ok tt, after_commit s1)
    | (Raise e, s1) => (Raise e, set_pending [(m, r)] s1)
    end.
Proof.
  intros Hp Hd. destruct s as [w c wk p d lg tr]. simpl in *. subst.
  unfold session_add, session_commit, session_flush. monad_simpl.
  unfold insert_row. monad_simpl.
  by destruct (check_row _ _ _).
Qed.


(** *** The payloads of the tasks are acceptable *)



Lemma history_item_inv item :
  is_history_item item ->
  ∃ d o h l c v,
    item = <["date" := VDate d]> (<["open_price" := VFloat o]>
          (<["high_price" := VFloat h]> (<["low_price" := VFloat l]>
          (<["close_price" := VFloat c]> (<["volume" := VFloat v]> ∅))))).
Proof.
  intros [r Hr]. unfold spec_history_record in Hr.
  do 7 (destruct r as [|? r]; try done).
  repeat (match type of Hr with
          | context [date_parse ?x] => destruct (date_parse x); simpl in Hr
          | context [py_float ?x] => destruct (py_float x); simpl in Hr
          end; try done).
  injection Hr as <-. by eexists _, _, _, _, _, _.
Qed.






(** *** Order of the statements *)







(** *** The loops of the tasks *)







(** *** The parsers read the site and write the log, nothing else *)



Lemma logged_web ws s s' : logged ws s s' -> web s' = web s.
Proof. by intros ->. Qed.


Lemma omap_history_items table :
  Forall is_history_item (omap spec_history_record table).
Proof.
  apply Forall_forall. intros item (r & _ & Hr)%list_elem_of_omap.
  by exists r.
Qed.

Lemma omap_trade_items table :
  Forall is_trade_item (omap spec_trade_record table).
Proof.
  apply Forall_forall. intros item (r & _ & Hr)%list_elem_of_omap.
  by exists r.
Qed.

(** The history loop never raises and keeps the records of the rows that
    convert, in order. *)
Lemma parse_history_rows_run ticker table acc s :
  ∃ ws s',
    parse_history_rows ticker table acc s
      = (Ok (acc ++ omap spec_history_record table), s')
    ∧ logged ws s s'.
Proof.
  revert acc s. induction table as [|r table IH]; intros acc s; simpl.
  { exists [], s. rewrite app_nil_r. split; [done | apply logged_nil]. }
  destruct (decide (length r ≠ 6%nat)) as [Hne|Heq].
  - rewrite (spec_history_record_length r Hne).
    edestruct IH as (ws & s' & Hrun & Hlog).
    eexists (_ :: ws), s'. monad_unfold. simpl. rewrite Hrun.
    split; [done | by apply logged_cons].
  - assert (length r = 6%nat) as Hlen by lia.
    pose proof (history_item_spec r s Hlen) as Hitem.
    destruct (spec_history_record r) as [item|] eqn:Hspec.
    + destruct (IH (acc ++ [item]) s) as (ws & s' & Hrun & Hlog).
      exists ws, s'. monad_unfold. rewrite Hitem. simpl.
      rewrite Hrun. rewrite <- app_assoc. simpl. by split.
    + destruct Hitem as [t Hitem].
      edestruct IH as (ws & s' & Hrun & Hlog).
      eexists (_ :: ws), s'. monad_unfold. rewrite Hitem. simpl.
      rewrite Hrun. split; [done | by apply logged_cons].
Qed.

Lemma parse_history_post ticker s res sp :
  parse_history ticker s = (res, sp) ->
  (∃ ws, logged ws s sp)
  ∧ (∀ history, res = Ok history -> Forall is_history_item history).
Proof.
  unfold parse_history, parse_page, find_tag. monad_unfold.
  destruct (web s _ _) as [page_dom|e];
    [|intros [= <- <-]; split; [eexists; apply logged_nil | done]].
  destruct (dom_find _ page_dom) as [div_dom|];
    [|intros [= <- <-]; split; [eexists; apply logged_nil | done]].
  destruct (dom_find _ div_dom) as [table|];
    [|intros [= <- <-]; split; [eexists; apply logged_nil | done]].
  destruct (dom_find _ table) as [table_dom|];
    [|intros [= <- <-]; split; [eexists; apply logged_nil | done]].
  destruct (parse_history_rows_run ticker (parse_table table_dom) [] s)
    as (ws & s' & Hrun & Hlog).
  rewrite Hrun. intros [= <- <-]. split; [by eexists|].
  intros history [= <-]. apply omap_history_items.
Qed.

Lemma parse_history_web ticker s1 s2 :
  web s1 = web s2 ->
  fst (parse_history ticker s1) = fst (parse_history ticker s2).
Proof.
  intros Hweb. unfold parse_history, parse_page, find_tag. monad_unfold.
  rewrite Hweb.
  destruct (web s2 _ _) as [page_dom|e]; [|done].
  destruct (dom_find _ page_dom) as [div_dom|]; [|done].
  destruct (dom_find _ div_dom) as [table|]; [|done].
  destruct (dom_find _ table) as [table_dom|]; [|done].
  destruct (parse_history_rows_run ticker (parse_table table_dom) [] s1)
    as (ws1 & s1' & -> & _).
  destruct (parse_history_rows_run ticker (parse_table table_dom) [] s2)
    as (ws2 & s2' & -> & _).
  done.
Qed.

Lemma parse_trades_page_count_pure page_dom s :
  ∃ res, ∀ s', parse_trades_page_count page_dom s' = (res, s')
         ∧ parse_trades_page_count page_dom s = (res, s).
Proof.
  unfold parse_trades_page_count, find_tag, int_. monad_unfold.
  destruct (dom_find _ page_dom) as [link|]; [|by eexists].
  destruct (default _ _) as [|p ps]; [by eexists|].
  destruct (py_int p); by eexists.
Qed.

Lemma parse_trades_post ticker page s res sp :
  parse_trades ticker page s = (res, sp) ->
  (∃ ws, logged ws s sp)
  ∧ (∀ trades, res = Ok trades -> Forall is_trade_item trades).
Proof.
  unfold parse_trades, parse_page, find_tag. monad_unfold.
  destruct (web s _ _) as [page_dom|e];
    [|intros [= <- <-]; split; [eexists; apply logged_nil | done]].
  destruct (parse_trades_page_count_pure page_dom s) as [rc Hrc].
  rewrite (proj1 (Hrc s)).
  destruct rc as [page_count|e];
    [|intros [= <- <-]; split; [eexists; apply logged_nil | done]].
  destruct (decide (page <= page_count));
    [|intros [= <- <-]; split; [eexists; apply logged_nil|];
      intros trades [= <-]; constructor].
  destruct (dom_find _ page_dom) as [div_dom|];
    [|intros [= <- <-]; split; [eexists; apply logged_nil | done]].
  destruct (dom_find _ div_dom) as [table_dom|];
    [|intros [= <- <-]; split; [eexists; apply logged_nil | done]].
  destruct (parse_trades_rows_spec ticker page (parse_table table_dom) [] s)
    as (ws & s' & Hrun & Hlog).
  rewrite Hrun. intros [= <- <-]. split; [by eexists|].
  intros trades [= <-]. apply omap_trade_items.
Qed.

Lemma parse_trades_web ticker page s1 s2 :
  web s1 = web s2 ->
  fst (parse_trades ticker page s1) = fst (parse_trades ticker page s2).
Proof.
  intros Hweb. unfold parse_trades, parse_page, find_tag. monad_unfold.
  rewrite Hweb.
  destruct (web s2 _ _) as [page_dom|e]; [|done].
  destruct (parse_trades_page_count_pure page_dom s1) as [rc Hrc].
  rewrite (proj1 (Hrc s1)), (proj1 (Hrc s2)).
  destruct rc as [page_count|e]; [|done].
  destruct (decide (page <= page_count)); [|done].
  destruct (dom_find _ page_dom) as [div_dom|]; [|done].
  destruct (dom_find _ div_dom) as [table_dom|]; [|done].
  destruct (parse_trades_rows_spec ticker page (parse_table table_dom) [] s1)
    as (ws1 & s1' & -> & _).
  destruct (parse_trades_rows_spec ticker page (parse_table table_dom) [] s2)
    as (ws2 & s2' & -> & _).
  done.
Qed.

(** *** The tasks *)






(** *** The pool and the report loop *)

Lemma initial_state_consistent site : consistent (initial_state site).
Proof.
  split; [done|]. split.
  - intros m. split.
    + intros r Hr. destruct m; by apply elem_of_nil in Hr.
    + intros c _ i j ri rj Hi. destruct m; simpl in Hi; by rewrite lookup_nil in Hi.
  - intros m r Hr. destruct m; by apply elem_of_nil in Hr.
Qed.












(** ** Further properties of the parser *)

Lemma head_filter_first {A} (P : A -> Prop) `{!∀ x, Decision (P x)} l y :
  head (filter P l) = Some y ->
  ∃ pre post, l = pre ++ y :: post ∧ P y ∧ ∀ x, x ∈ pre -> ¬ P x.
Proof.
  induction l as [|a l IH]; [done|].
  destruct (decide (P a)) as [Ha|Ha].
  - rewrite filter_cons_True by done. intros [= ->].
    exists [], l. split; [done|]. split; [done|].
    intros x Hx. by apply elem_of_nil in Hx.
  - rewrite filter_cons_False by done. intros Hh.
    destruct (IH Hh) as (pre & post & -> & Hy & Hpre).
    exists (a :: pre), post. split; [done|]. split; [done|].
    intros x [->|Hx]%elem_of_cons; auto.
Qed.

(** X1. When [find_tag] returns, the state is untouched and the tag it
    returns satisfies the keyword arguments and is the first node below
    [dom], in document order, that does. *)
Theorem find_tag_first_match dom sel s t s' :
  find_tag dom sel s = (Ok t, s') ->
  s' = s
  ∧ matches sel t = true
  ∧ ∃ pre post,
      descendants dom = pre ++ t :: post
      ∧ ∀ x, x ∈ pre -> matches sel x = false.
Proof.
  unfold find_tag. destruct (dom_find sel dom) as [t'|] eqn:Hfind; [|done].
  intros [= -> ->]. split; [done|].
  apply head_filter_first in Hfind as (pre & post & Hd & Ht & Hpre).
  split; [by apply Is_true_true|].
  exists pre, post. split; [done|]. intros x Hx.
  specialize (Hpre x Hx). by destruct (matches sel x).
Qed.

(** X2. [find_tag] raises [ParsingError], carrying the keyword arguments
    and leaving the state untouched, exactly when no node below [dom]
    satisfies them. *)
Theorem find_tag_missing dom sel s :
  (∀ x, x ∈ descendants dom -> matches sel x = false)
  ↔ find_tag dom sel s = (Raise (ParsingError sel), s).
Proof.
  unfold find_tag, dom_find. split.
  - intros Hnone.
    destruct (filter _ _) as [|y l] eqn:Hf; [done|].
    assert (y ∈ filter (fun x => Is_true (matches sel x)) (descendants dom))
      as Hy by (rewrite Hf; by left).
    apply list_elem_of_filter in Hy as [Hy1 Hy2].
    rewrite (Hnone y Hy2) in Hy1. done.
  - destruct (head _) as [y|] eqn:Hh; [done|]. intros _ x Hx.
    destruct (matches sel x) eqn:Hm; [|done].
    destruct (head_filter_Some (fun x => Is_true (matches sel x))
                (descendants dom) x Hx) as [y Hy]; [by apply Is_true_true|].
    congruence.
Qed.

(** X3. The failures of [parse_history] on a page that was downloaded:
    without the quotes container, or without a table in it, it raises the
    [ParsingError] of the missing element; with a table that has no
    [tbody] it raises [AttributeError], since the result of [find] is used
    unchecked.  In each case neither the log nor the store changes. *)
Theorem parse_history_failures ticker s page_dom :
  web s (history_url ticker) [] = Ok page_dom ->
  (dom_find quotes_div page_dom = None ->
     parse_history ticker s = (Raise (ParsingError quotes_div), s))
  ∧ (∀ div_dom,
       dom_find quotes_div page_dom = Some div_dom ->
       dom_find (by_name "table") div_dom = None ->
       parse_history ticker s = (Raise (ParsingError (by_name "table")), s))
  ∧ (∀ div_dom table,
       dom_find quotes_div page_dom = Some div_dom ->
       dom_find (by_name "table") div_dom = Some table ->
       dom_find (by_name "tbody") table = None ->
       parse_history ticker s = (Raise AttributeError, s)).
Proof.
  intros Hweb. unfold parse_history, parse_page, find_tag.
  fold (history_url ticker). fold quotes_div. monad_unfold. rewrite Hweb.
  split; [by intros ->|]. split.
  - by intros div_dom -> ->.
  - by intros div_dom table -> -> ->.
Qed.

(** X4. [parse_table] takes its rows from the direct children of the
    element it is given.  [parse_trades] hands it the [table] element
    itself, so when the rows of the trades table are wrapped (in a
    [tbody], say) and no [tr] is a direct child of the table, the page
    yields no trade at all, without an error or a warning. *)
Theorem parse_trades_wrapped_rows ticker page s page_dom page_count
    div_dom table_dom :
  web s (trades_url ticker) [("page", page)] = Ok page_dom ->
  parse_trades_page_count page_dom s = (Ok page_count, s) ->
  page <= page_count ->
  dom_find trades_div page_dom = Some div_dom ->
  dom_find (by_name "table") div_dom = Some table_dom ->
  (∀ c, c ∈ children_of table_dom -> matches (by_name "tr") c = false) ->
  parse_trades ticker page s = (Ok [], s).
Proof.
  intros Hweb Hcount Hle Hdiv Htable Hrows.
  unfold parse_trades, parse_page, find_tag.
  fold (trades_url ticker). fold trades_div.
  unfold bind at 1. rewrite Hweb. unfold bind at 1. rewrite Hcount.
  rewrite decide_True by done. monad_unfold. rewrite Hdiv, Htable.
  assert (parse_table table_dom = []) as ->; [|done].
  unfold parse_table, dom_find_all.
  assert (filter (fun x => Is_true (matches (by_name "tr") x))
                 (children_of table_dom) = []) as ->; [|done].
  destruct (filter _ _) as [|y l] eqn:Hf; [done|].
  assert (y ∈ filter (fun x => Is_true (matches (by_name "tr") x))
                     (children_of table_dom)) as Hy by (rewrite Hf; by left).
  apply list_elem_of_filter in Hy as [Hy1 Hy2].
  rewrite (Hrows y Hy2) in Hy1. done.
Qed.

(** X5. The last-price cell is converted as it stands: unlike the two
    share counts it is not stripped of thousands separators.  A trade row
    whose last price is not empty and is rejected by float() is dropped
    with a warning, whatever float() would say once the commas are
    removed. *)
Theorem last_price_is_not_stripped ticker page table acc s
    c0 c1 c2 c3 c4 c5 c6 c7 d st :
  c6 ≠ "" ->
  py_float c6 = None ->
  date_parse c2 = Some d ->
  py_float (remove_commas c5) = Some st ->
  parse_trades_rows ticker page ([c0; c1; c2; c3; c4; c5; c6; c7] :: table)
                    acc s
  = parse_trades_rows ticker page table acc
      (add_log (WarnDataFormat ticker (Some page) (ValueError c6)) s).
Proof.
  intros Hne Hlp Hd Hst. cbn [parse_trades_rows].
  rewrite decide_False by (simpl; lia).
  unfold trade_item, date_, float_, cell. simpl.
  rewrite Hd, Hst, Hlp. rewrite decide_False by done.
  reflexivity.
Qed.

(** X6. A trades page without the "last page" link fails as a whole, even
    if it holds a table of trades: [parse_trades] raises the
    [ParsingError] of the link before it looks at the table, and the task
    [fetch_trades] raises it as well, without a statement, a rollback or a
    log entry. *)
Theorem trades_without_pager_fail ticker page s page_dom :
  web s (trades_url ticker) [("page", page)] = Ok page_dom ->
  dom_find last_page_link page_dom = None ->
  parse_trades ticker page s = (Raise (ParsingError last_page_link), s)
  ∧ fetch_trades ticker page s = (Raise (ParsingError last_page_link), s).
Proof.
  intros Hweb Hlink.
  assert (parse_trades ticker page s
          = (Raise (ParsingError last_page_link), s)) as Hparse.
  { unfold parse_trades, parse_page. fold (trades_url ticker).
    unfold bind at 1. rewrite Hweb. unfold bind at 1.
    unfold parse_trades_page_count, find_tag. fold last_page_link.
    unfold bind at 1. by rewrite Hlink. }
  split; [done|]. unfold fetch_trades.
  by rewrite (bind_raise _ _ _ _ _ Hparse).
Qed.

(** X7. A request that fails (transport error or error status) fails the
    task with the same exception and leaves everything as it was: the
    download happens before the [try] block, so there is no rollback, no
    statement and no log entry. *)
Theorem failed_request_changes_nothing ticker page s e :
  (web s (history_url ticker) [] = Raise e ->
     fetch_history ticker s = (Raise e, s))
  ∧ (web s (trades_url ticker) [("page", page)] = Raise e ->
       fetch_trades ticker page s = (Raise e, s)).
Proof.
  split; intros Hweb.
  - unfold fetch_history, parse_history, parse_page.
    fold (history_url ticker). monad_unfold. by rewrite Hweb.
  - unfold fetch_trades, parse_trades, parse_page.
    fold (trades_url ticker). monad_unfold. by rewrite Hweb.
Qed.

(** ** Further properties of [upsert] *)

Lemma select_keys_first_missing data pre k post s :
  (∀ k', k' ∈ pre -> is_Some (data !! k')) ->
  data !! k = None ->
  select_keys data (pre ++ k :: post) s = (Raise (KeyError k), s).
Proof.
  induction pre as [|a pre IH]; intros Hpre Hk; simpl.
  - by rewrite Hk.
  - destruct (Hpre a) as [v ->]; [by left|]. monad_unfold.
    rewrite IH; [done| |done]. intros k' Hk'. apply Hpre. by right.
Qed.

(** X8. A key of [keys] that the payload lacks makes [upsert] raise
    [KeyError] for the first such key, before the model is constructed and
    before the session is touched: the state is unchanged, whatever it
    was. *)
Theorem upsert_missing_key m data keys_before k keys_after s :
  (∀ k', k' ∈ keys_before -> is_Some (data !! k')) ->
  data !! k = None ->
  upsert m data (keys_before ++ k :: keys_after) s = (Raise (KeyError k), s).
Proof.
  intros Hpre Hk. unfold upsert.
  by rewrite (bind_raise _ _ _ _ _
                (select_keys_first_missing data _ k _ s Hpre Hk)).
Qed.

Lemma construct_raises m data s e s' :
  construct m data s = (Raise e, s') -> (∃ k, e = TypeError k) ∧ s' = s.
Proof.
  unfold construct. destruct (List.find _ _) as [k|]; [|done].
  intros [= <- <-]. eauto.
Qed.

(** Every way through [upsert] on an idle session. *)
Lemma upsert_cases m data keys s :
  clean s ->
  (∃ k, upsert m data keys s = (Raise (KeyError k), s))
  ∨ (∃ k, upsert m data keys s = (Raise (TypeError k), s))
  ∨ (∃ r1 s1, insert_row m data s = (Ok r1, s1)
              ∧ upsert m data keys s = (Ok (Some r1), after_commit s1))
  ∨ (∃ v, insert_row m data s = (Raise (IntegrityError v), s)
          ∧ data = ∅
          ∧ upsert m data keys s
            = (Ok (head (resident m (key_fields data keys) (committed s))),
               after_commit (after_rollback s)))
  ∨ (∃ v, insert_row m data s = (Raise (IntegrityError v), s)
          ∧ upsert m data keys s
            = match head (resident m (key_fields data keys) (committed s)) with
              | None => (Raise AttributeError, after_rollback s)
              | Some old =>
                  match update_row m (get "id" old) (data ∪ old)
                                   (after_rollback s) with
                  | (Ok _, s2) => (Ok (Some (data ∪ old)), after_commit s2)
                  | (Raise e, s2) =>
                      (Raise e, set_dirty [(m, get "id" old, data ∪ old)] s2)
                  end
              end).
Proof.
  intros Hclean.
  destruct (decide (Forall (fun k => is_Some (data !! k)) keys))
    as [Hkeys|Hno]; cycle 1.
  { left. destruct (select_keys_missing data keys s) as [k Hk].
    { intros Hall. by apply Hno, Forall_forall. }
    exists k. unfold upsert. by rewrite (bind_raise _ _ _ _ _ Hk). }
  rewrite Forall_forall in Hkeys. right.
  destruct (construct m data s) as [[x|e] sx] eqn:Hc; cycle 1.
  { left. destruct (construct_raises _ _ _ _ _ Hc) as [[k ->] ->].
    exists k. unfold upsert.
    rewrite (bind_ok _ _ _ _ _ (select_keys_run data keys s Hkeys)).
    by rewrite (bind_raise _ _ _ _ _ Hc). }
  pose proof (construct_inv _ _ _ _ _ Hc) as Hcols. right.
  destruct (insert_row m data s) as [[r1|e] s1] eqn:Hins.
  { left. exists r1, s1. split; [done|]. by apply upsert_inserted. }
  right. destruct (insert_row_raises _ _ _ _ _ Hins) as (v & -> & ->).
  destruct (decide (data = ∅)) as [Hempty|Hne]; cycle 1.
  { right. exists v. split; [done|]. by eapply upsert_conflict. }
  left. exists v. split; [done|]. split; [done|].
  destruct Hclean as (Hp & Hd & Hw).
  pose proof (add_flush_fail m data s _ s Hp Hd Hins) as Hrun.
  assert (after_rollback (set_pending [(m, data)] s) = after_rollback s)
    as Hrb by (by destruct s).
  unfold upsert.
  rewrite (bind_ok _ _ _ _ _ (select_keys_run data keys s Hkeys)).
  rewrite (bind_ok _ _ _ _ _ (construct_run m data s Hcols)).
  erewrite bind_ok; cycle 1.
  { erewrite try_caught; [|exact Hrun|done].
    rewrite (bind_ok _ _ _ _ _ (rollback_run _)), Hrb.
    erewrite bind_ok; [|by apply query_first_idle].
    rewrite Hempty at 3. rewrite map_to_list_empty. reflexivity. }
  by rewrite (bind_ok _ _ _ _ _ (commit_idle (after_rollback s) eq_refl eq_refl)).
Qed.


(** What a call of [upsert] that returns leaves behind. *)
Lemma upsert_ok_frame m data keys s instance s' :
  clean s ->
  upsert m data keys s = (Ok instance, s') ->
  clean s'
  ∧ (∀ m', m' ≠ m ->
       table_of m' (committed s') = table_of m' (committed s))
  ∧ (length (rows (table_of m (committed s')))
       = length (rows (table_of m (committed s)))
     ∨ length (rows (table_of m (committed s')))
       = S (length (rows (table_of m (committed s))))).
Proof.
  intros Hclean Hrun. pose proof Hclean as (Hp & Hd & Hw).
  destruct (upsert_cases m data keys s Hclean)
    as [[k Hk]|[[k Hk]|[(r1 & s1 & Hins & Hk)|[(v & _ & _ & Hk)|(v & _ & Hk)]]]];
    rewrite Hk in Hrun; try done.
  - injection Hrun as <- <-.
    apply insert_row_inv in Hins as [(_ & _ & ->)|(? & _ & [=] & _)].
    simpl. rewrite Hw. split; [done|]. split.
    + intros m' Hm'. rewrite table_of_set_table.
      by rewrite decide_False by done.
    + right. rewrite table_of_set_table, decide_True by done. simpl.
      rewrite length_app. simpl. lia.
  - injection Hrun as <- <-. simpl. auto using clean_after_commit.
  - destruct (head _) as [old|]; [|done].
    destruct (update_row _ _ _ _) as [[[]|e'] s2] eqn:Hupd; [|done].
    injection Hrun as <- <-.
    apply update_row_inv in Hupd as [(_ & _ & ->)|(? & _ & [=] & _)].
    simpl. split; [done|]. split.
    + intros m' Hm'. rewrite table_of_set_table.
      by rewrite decide_False by done.
    + left. rewrite table_of_set_table, decide_True by done. simpl.
      by rewrite length_map.
Qed.


(** ** Rows written by the trades task *)

Lemma bind_inv {S A B} (c : M S A) (k : A -> M S B) s b s' :
  bind c k s = (Ok b, s') -> ∃ a s1, c s = (Ok a, s1) ∧ k a s1 = (Ok b, s').
Proof. unfold bind. destruct (c s) as [[a|e] s1]; [eauto | done]. Qed.

(** The handler of the two tasks re-raises; the block returns only if its
    body did. *)
Lemma try_reraise_inv {A} (c : M state A) catches s a s' :
  try_except c catches (fun e => do session_rollback then raise e) s
    = (Ok a, s') ->
  c s = (Ok a, s').
Proof.
  unfold try_except. destruct (c s) as [[x|e] s1]; [done|].
  by destruct (catches e).
Qed.

Lemma pop_inv k (d : row) s x s' : pop k d s = (Ok x, s') -> s' = s.
Proof. unfold pop. destruct (d !! k); [|done]. by intros [= _ <-]. Qed.

Lemma getattr_id_inv instance s x s' :
  getattr_id instance s = (Ok x, s') -> s' = s.
Proof. destruct instance; [|done]. by intros [= _ <-]. Qed.

Lemma construct_ok_inv m data s x s' :
  construct m data s = (Ok x, s') -> x = data ∧ s' = s.
Proof.
  unfold construct. destruct (List.find _ _); [done|]. by intros [= <- <-].
Qed.

Lemma logged_clean ws s s' : logged ws s s' -> clean s -> clean s'.
Proof. by intros -> ?. Qed.

Lemma logged_committed ws s s' : logged ws s s' -> committed s' = committed s.
Proof. by intros ->. Qed.

Lemma upsert_ok_web m data keys s instance s' :
  clean s -> upsert m data keys s = (Ok instance, s') -> web s' = web s.
Proof.
  intros Hclean Hrun.
  destruct (upsert_cases m data keys s Hclean)
    as [[k Hk]|[[k Hk]|[(r1 & s1 & Hins & Hk)|[(v & _ & _ & Hk)|(v & _ & Hk)]]]];
    rewrite Hk in Hrun; try done.
  - injection Hrun as <- <-.
    by apply insert_row_inv in Hins as [(_ & _ & ->)|(? & _ & [=] & _)].
  - by injection Hrun as <- <-.
  - destruct (head _) as [old|]; [|done].
    destruct (update_row _ _ _ _) as [[[]|e'] s2] eqn:Hupd; [|done].
    injection Hrun as <- <-.
    by apply update_row_inv in Hupd as [(_ & _ & ->)|(? & _ & [=] & _)].
Qed.

(** A straight INSERT and commit on an idle session. *)
Lemma add_commit_rows m r s s' :
  clean s ->
  session_commit (set_pending (pending s ++ [(m, r)]) s) = (Ok tt, s') ->
  clean s' ∧ web s' = web s
  ∧ (∀ m', m' ≠ m ->
       table_of m' (committed s') = table_of m' (committed s))
  ∧ length (rows (table_of m (committed s')))
    = S (length (rows (table_of m (committed s)))).
Proof.
  intros (Hp & Hd & Hw) Hrun.
  pose proof (add_commit_run m r s Hp Hd) as Hac.
  unfold bind at 1 in Hac. rewrite session_add_run, Hrun in Hac.
  destruct (insert_row m r s) as [[r1|e] s1] eqn:Hins; [|done].
  injection Hac as ->.
  apply insert_row_inv in Hins as [(_ & _ & ->)|(? & _ & [=] & _)].
  simpl. rewrite Hw. split; [done|]. split; [done|]. split.
  - intros m' Hm'. rewrite table_of_set_table.
    by rewrite decide_False by done.
  - rewrite table_of_set_table, decide_True by done. simpl.
    rewrite length_app. simpl. lia.
Qed.

(** The trades loop, when it returns, has added one Trade row per item and
    has left the stocks and the quotes alone. *)
Lemma insert_trades_rows stock trades s s' :
  clean s ->
  insert_trades stock trades s = (Ok tt, s') ->
  clean s' ∧ web s' = web s
  ∧ length (rows (table_of Trade (committed s')))
    = (length (rows (table_of Trade (committed s))) + length trades)%nat
  ∧ table_of Stock (committed s') = table_of Stock (committed s)
  ∧ table_of Quote (committed s') = table_of Quote (committed s).
Proof.
  revert s. induction trades as [|trade trades IH]; intros s Hclean Hrun.
  { injection Hrun as <-. simpl. rewrite Nat.add_0_r. done. }
  cbn [insert_trades] in Hrun.
  apply bind_inv in Hrun as (p1 & sa & ->%pop_inv & Hrun).
  apply bind_inv in Hrun as (p2 & sa & ->%pop_inv & Hrun).
  apply bind_inv in Hrun as (insider & s1 & Hup & Hrun).
  destruct (upsert_ok_frame _ _ _ _ _ _ Hclean Hup) as (Hclean1 & Hfr1 & _).
  pose proof (upsert_ok_web _ _ _ _ _ _ Hclean Hup) as Hweb1.
  apply bind_inv in Hrun as (stock_id & sa & ->%getattr_id_inv & Hrun).
  apply bind_inv in Hrun as (insider_id & sa & ->%getattr_id_inv & Hrun).
  apply bind_inv in Hrun as (instance & sa & [-> ->]%construct_ok_inv & Hrun).
  apply bind_inv in Hrun as ([] & sa & Hadd & Hrun).
  rewrite session_add_run in Hadd. injection Hadd as <-.
  apply bind_inv in Hrun as ([] & s2 & Hcommit & Hrun).
  destruct (add_commit_rows _ _ _ _ Hclean1 Hcommit)
    as (Hclean2 & Hweb2 & Hfr2 & Hlen2).
  destruct (IH s2 Hclean2 Hrun) as (Hclean3 & Hweb3 & Hlen3 & Hst3 & Hq3).
  split; [done|]. split; [congruence|]. split.
  - rewrite Hlen3, Hlen2, (Hfr1 Trade) by done. simpl. lia.
  - rewrite Hst3, Hq3, (Hfr2 Stock), (Hfr2 Quote), (Hfr1 Stock), (Hfr1 Quote)
      by done. split; reflexivity.
Qed.

(** What a run of [fetch_trades] that returns has written. *)
Lemma fetch_trades_rows ticker page s msg s' :
  clean s ->
  fetch_trades ticker page s = (Ok msg, s') ->
  ∃ trades,
    fst (parse_trades ticker page s) = Ok trades
    ∧ msg = trades_message (length trades) ticker page
    ∧ clean s' ∧ web s' = web s
    ∧ length (rows (table_of Trade (committed s')))
      = (length (rows (table_of Trade (committed s))) + length trades)%nat
    ∧ table_of Quote (committed s') = table_of Quote (committed s).
Proof.
  intros Hclean Hrun. unfold fetch_trades in Hrun.
  apply bind_inv in Hrun as (trades & sp & Hparse & Hrun).
  destruct (parse_trades_post _ _ _ _ _ Hparse) as [[ws Hlog] _].
  pose proof (logged_clean _ _ _ Hlog Hclean) as Hcleanp.
  apply bind_inv in Hrun as ([] & s1 & Hbody%try_reraise_inv & Hrun).
  injection Hrun as <- <-.
  apply bind_inv in Hbody as (stock & s0 & Hup & Hloop).
  destruct (upsert_ok_frame _ _ _ _ _ _ Hcleanp Hup) as (Hclean0 & Hfr0 & _).
  pose proof (upsert_ok_web _ _ _ _ _ _ Hcleanp Hup) as Hweb0.
  destruct (insert_trades_rows _ _ _ _ Hclean0 Hloop)
    as (Hclean1 & Hweb1 & Hlen1 & _ & Hq1).
  pose proof (logged_web _ _ _ Hlog) as Hwebp.
  pose proof (logged_committed _ _ _ Hlog) as Hcp.
  pose proof (Hfr0 Trade ltac:(discriminate)) as Ht0.
  pose proof (Hfr0 Quote ltac:(discriminate)) as Hq0.
  exists trades. rewrite Hparse.
  clear Hup Hloop Hparse Hlog Hfr0.
  split; [reflexivity|]. split; [reflexivity|]. split; [exact Hclean1|].
  split; [congruence|].
  rewrite Hlen1, Hq1, Ht0, Hq0, Hcp. split; reflexivity.
Qed.

(** X11. Trades are never matched against the rows already stored: a run
    of [fetch_trades] that returns has added exactly as many Trade rows as
    its message counts, and running the same task again against the same
    site returns the same message and adds as many rows once more. *)
Theorem refetched_trades_are_duplicated ticker page s msg1 s1 msg2 s2 :
  clean s ->
  fetch_trades ticker page s = (Ok msg1, s1) ->
  fetch_trades ticker page s1 = (Ok msg2, s2) ->
  ∃ n,
    msg1 = trades_message n ticker page ∧ msg2 = msg1
    ∧ length (rows (table_of Trade (committed s1)))
      = (length (rows (table_of Trade (committed s))) + n)%nat
    ∧ length (rows (table_of Trade (committed s2)))
      = (length (rows (table_of Trade (committed s))) + 2 * n)%nat.
Proof.
  intros Hclean Hrun1 Hrun2.
  destruct (fetch_trades_rows _ _ _ _ _ Hclean Hrun1)
    as (trades1 & Hp1 & -> & Hclean1 & Hweb1 & Hlen1 & _).
  destruct (fetch_trades_rows _ _ _ _ _ Hclean1 Hrun2)
    as (trades2 & Hp2 & -> & _ & _ & Hlen2 & _).
  rewrite (parse_trades_web ticker page s1 s Hweb1), Hp1 in Hp2.
  injection Hp2 as <-.
  exists (length trades1). clear Hrun1 Hrun2 Hp1.
  split; [reflexivity|]. split; [reflexivity|].
  split; [exact Hlen1|]. rewrite Hlen2, Hlen1. lia.
Qed.

(** ** Rows written by the history task *)

(** An upsert whose key fields are already stored takes the UPDATE path,
    on the one row that carries them. *)
Lemma upsert_known m c keys data s (x : row) instance s' :
  clean s -> database_ok (committed s) ->
  natural_key m = Some c -> keys ≡ₚ c ->
  x ∈ rows (table_of m (committed s)) ->
  matches_keys (key_fields data keys) x = true ->
  upsert m data keys s = (Ok instance, s') ->
  instance = Some (data ∪ x)
  ∧ rows (table_of m (committed s'))
    = map (fun y => if decide (get "id" y = get "id" x) then data ∪ x else y)
          (rows (table_of m (committed s))).
Proof.
  intros Hclean Hok Hnk Hperm Hx Hmx Hrun.
  assert (keys ≠ []) as Hne
    by (eapply perm_nonempty; [done | by eapply natural_key_nonempty]).
  destruct (upsert_ok_inv _ _ _ _ _ _ Hclean Hne Hrun)
    as (Hkeys & Hcols & [(r & s1 & Hins & _ & _)
                        |(v & old & s2 & Hins & Hhead & Hupd & -> & ->)]);
    clear Hrun.
  - exfalso. destruct Hclean as (_ & _ & Hw).
    eapply (insert_row_collides m c keys data s x); try done.
    by rewrite Hw.
  - apply head_filter_inv in Hhead as [Hold Hmold%Is_true_true].
    assert (old = x) as ->.
    { apply list_elem_of_lookup in Hold as [i Hi].
      apply list_elem_of_lookup in Hx as [j Hj].
      pose proof (resident_unique m c keys data (table_of m (committed s))
                    i j old x (Hok m) Hnk Hperm Hi Hj Hmold Hmx) as ->.
      congruence. }
    split; [reflexivity|].
    apply update_row_inv in Hupd as [(_ & _ & ->)|(? & _ & [=] & _)].
    simpl. by rewrite table_of_set_table, decide_True by done.
Qed.

(** A key that is stored stays stored through an upsert. *)
Lemma upsert_keeps_keys m c keys data s instance s' (data' : row) :
  clean s -> database_ok (committed s) ->
  natural_key m = Some c -> keys ≡ₚ c ->
  upsert m data keys s = (Ok instance, s') ->
  (∃ y, y ∈ rows (table_of m (committed s))
        ∧ matches_keys (key_fields data' keys) y = true) ->
  ∃ y, y ∈ rows (table_of m (committed s'))
       ∧ matches_keys (key_fields data' keys) y = true.
Proof.
  intros Hclean Hok Hnk Hperm Hrun (y & Hy & Hmy).
  assert (keys ≠ []) as Hne
    by (eapply perm_nonempty; [done | by eapply natural_key_nonempty]).
  pose proof Hclean as (_ & _ & Hw).
  destruct (upsert_ok_inv _ _ _ _ _ _ Hclean Hne Hrun)
    as (Hkeys & Hcols & [(r & s1 & Hins & _ & ->)
                        |(v & old & s2 & Hins & Hhead & Hupd & _ & ->)]);
    clear Hrun.
  - apply insert_row_inv in Hins as [(_ & _ & ->)|(? & _ & [=] & _)].
    exists y. split; [|done]. simpl.
    rewrite table_of_set_table, decide_True by done. simpl.
    apply elem_of_app. left. by rewrite Hw.
  - apply update_row_inv in Hupd as [(_ & _ & ->)|(? & _ & [=] & _)].
    apply head_filter_inv in Hhead as [Hold Hmold%Is_true_true].
    simpl. rewrite table_of_set_table, decide_True by done. simpl.
    destruct (decide (get "id" y = get "id" old)) as [Hid|Hid].
    + exists (data ∪ old). split.
      { apply list_elem_of_fmap. exists y. by rewrite decide_True. }
      assert (y = old) as ->.
      { apply list_elem_of_lookup in Hold as [i Hi].
        pose proof Hy as [j Hj]%list_elem_of_lookup.
        destruct (Hok m) as [Hnn Huniq].
        assert (j = i) as ->; [|congruence].
        apply (Huniq ["id"] (id_unique m) j i y old Hj Hi).
        apply agree_spec. intros k ->%list_elem_of_singleton.
        split; [|done].
        apply (proj1 (check_not_null_None m y) (Hnn y Hy)), id_not_null. }
      rewrite matches_keys_spec in Hmy, Hmold |- *.
      intros k Hk. rewrite get_union.
      destruct (Hkeys k Hk) as [w Hw'].
      rewrite Hw'. rewrite <- (Hmy k Hk), (Hmold k Hk).
      unfold get. by rewrite Hw'.
    + exists y. split; [|done].
      apply list_elem_of_fmap. exists y. by rewrite decide_False.
Qed.

Lemma getattr_id_Some_inv (r : row) s x s' :
  getattr_id (Some r) s = (Ok x, s') -> x = get "id" r ∧ s' = s.
Proof. by intros [= <- <-]. Qed.

(** The quotes loop, when it returns: the other tables are as before, no
    stored key is lost and every item's key is stored. *)
Lemma upsert_quotes_covers st history s s' :
  clean s -> database_ok (committed s) ->
  upsert_quotes (Some st) history s = (Ok tt, s') ->
  clean s' ∧ database_ok (committed s') ∧ web s' = web s
  ∧ (∀ m', m' ≠ Quote ->
       table_of m' (committed s') = table_of m' (committed s))
  ∧ (∀ data' : row,
       (∃ y, y ∈ rows (table_of Quote (committed s))
             ∧ matches_keys (key_fields data' ["date"; "stock_id"]) y = true) ->
       ∃ y, y ∈ rows (table_of Quote (committed s'))
            ∧ matches_keys (key_fields data' ["date"; "stock_id"]) y = true)
  ∧ (∀ item, item ∈ history ->
       ∃ y, y ∈ rows (table_of Quote (committed s'))
            ∧ matches_keys
                (key_fields (<["stock_id" := get "id" st]> item)
                            ["date"; "stock_id"]) y = true).
Proof.
  revert s. induction history as [|item history IH]; intros s Hclean Hok Hrun.
  { injection Hrun as <-. do 5 (split; [done|]).
    intros item Hitem. by apply elem_of_nil in Hitem. }
  cbn [upsert_quotes] in Hrun.
  apply bind_inv in Hrun as (sid & sa & [-> ->]%getattr_id_Some_inv & Hrun).
  apply bind_inv in Hrun as (instance & s1 & Hup & Hrun).
  assert (["date"; "stock_id"] ≡ₚ ["stock_id"; "date"]) as Hperm
    by apply Permutation_swap.
  destruct (upsert_ok_post Quote _ _ _ _ _ _ Hclean Hok eq_refl Hperm Hup)
    as (Hclean1 & Hok1 & rec & _ & Hrec & Hmrec).
  destruct (upsert_ok_frame _ _ _ _ _ _ Hclean Hup) as (_ & Hfr1 & _).
  pose proof (upsert_ok_web _ _ _ _ _ _ Hclean Hup) as Hweb1.
  pose proof (fun data' =>
                upsert_keeps_keys Quote _ _ _ _ _ _ data'
                  Hclean Hok eq_refl Hperm Hup) as Hkeep1.
  clear Hup.
  destruct (IH s1 Hclean1 Hok1 Hrun)
    as (Hclean2 & Hok2 & Hweb2 & Hfr2 & Hkeep2 & Hcov2).
  clear Hrun IH.
  split; [exact Hclean2|]. split; [exact Hok2|]. split; [congruence|].
  split; [|split].
  - intros m' Hm'. by rewrite (Hfr2 m' Hm'), (Hfr1 m' Hm').
  - intros data' Hy. by apply Hkeep2, Hkeep1.
  - intros item' [->|Hin]%elem_of_cons.
    + apply Hkeep2. by exists rec.
    + by apply Hcov2.
Qed.

(** The quotes loop over items whose keys are all stored adds no row. *)
Lemma upsert_quotes_known st history s s' :
  clean s -> database_ok (committed s) ->
  (∀ item, item ∈ history ->
     ∃ y, y ∈ rows (table_of Quote (committed s))
          ∧ matches_keys
              (key_fields (<["stock_id" := get "id" st]> item)
                          ["date"; "stock_id"]) y = true) ->
  upsert_quotes (Some st) history s = (Ok tt, s') ->
  length (rows (table_of Quote (committed s')))
  = length (rows (table_of Quote (committed s))).
Proof.
  revert s. induction history as [|item history IH];
    intros s Hclean Hok Hcov Hrun.
  { by injection Hrun as <-. }
  cbn [upsert_quotes] in Hrun.
  apply bind_inv in Hrun as (sid & sa & [-> ->]%getattr_id_Some_inv & Hrun).
  apply bind_inv in Hrun as (instance & s1 & Hup & Hrun).
  assert (["date"; "stock_id"] ≡ₚ ["stock_id"; "date"]) as Hperm
    by apply Permutation_swap.
  destruct (upsert_ok_post Quote _ _ _ _ _ _ Hclean Hok eq_refl Hperm Hup)
    as (Hclean1 & Hok1 & _).
  destruct (Hcov item) as (x & Hx & Hmx); [by left|].
  destruct (upsert_known Quote _ _ _ _ x _ _ Hclean Hok eq_refl Hperm
              Hx Hmx Hup) as [_ Hrows].
  pose proof (fun data' =>
                upsert_keeps_keys Quote _ _ _ _ _ _ data'
                  Hclean Hok eq_refl Hperm Hup) as Hkeep1.
  clear Hup.
  rewrite (IH s1 Hclean1 Hok1); [by rewrite Hrows, length_map| |exact Hrun].
  intros item' Hin. apply Hkeep1, Hcov. by right.
Qed.

(** The steps of a run of [fetch_history] that returns. *)
Lemma fetch_history_inv ticker s msg s' :
  fetch_history ticker s = (Ok msg, s') ->
  ∃ history sp stock s0,
    parse_history ticker s = (Ok history, sp)
    ∧ msg = history_message (length history) ticker
    ∧ upsert Stock (stock_data ticker) ["ticker"] sp = (Ok stock, s0)
    ∧ upsert_quotes stock history s0 = (Ok tt, s').
Proof.
  intros Hrun. unfold fetch_history in Hrun.
  apply bind_inv in Hrun as (history & sp & Hparse & Hrun).
  apply bind_inv in Hrun as ([] & s1 & Hbody%try_reraise_inv & Hrun).
  injection Hrun as <- <-.
  apply bind_inv in Hbody as (stock & s0 & Hup & Hloop).
  exists history, sp, stock, s0.
  split; [exact Hparse|]. split; [reflexivity|].
  split; [exact Hup | exact Hloop].
Qed.

(** X12. Quotes are matched against the rows already stored: after a run
    of [fetch_history] that returned, running the same task again against
    the same site returns the same message and adds no row, neither to the
    quotes nor to the stocks, and leaves the insiders and the trades as
    they were. *)
Theorem refetched_history_adds_no_rows ticker s msg1 s1 msg2 s2 :
  clean s -> database_ok (committed s) ->
  fetch_history ticker s = (Ok msg1, s1) ->
  fetch_history ticker s1 = (Ok msg2, s2) ->
  msg2 = msg1
  ∧ length (rows (table_of Quote (committed s2)))
    = length (rows (table_of Quote (committed s1)))
  ∧ length (rows (table_of Stock (committed s2)))
    = length (rows (table_of Stock (committed s1)))
  ∧ table_of Insider (committed s2) = table_of Insider (committed s1)
  ∧ table_of Trade (committed s2) = table_of Trade (committed s1).
Proof.
  intros Hclean Hok Hrun1 Hrun2.
  apply fetch_history_inv in Hrun1
    as (history & sp & stock & s0 & Hparse & -> & Hup & Hloop).
  apply fetch_history_inv in Hrun2
    as (history2 & sp2 & stock2 & s02 & Hparse2 & -> & Hup2 & Hloop2).
  (* first run *)
  destruct (parse_history_post _ _ _ _ Hparse) as [[ws Hlog] _].
  pose proof (logged_clean _ _ _ Hlog Hclean) as Hcleanp.
  pose proof (logged_committed _ _ _ Hlog) as Hcp.
  pose proof (logged_web _ _ _ Hlog) as Hwebp.
  rewrite <- Hcp in Hok.
  destruct (upsert_ok_post Stock ["ticker"] _ _ _ _ _ Hcleanp Hok eq_refl
              (reflexivity _) Hup)
    as (Hclean0 & Hok0 & st & -> & Hst & Hmst).
  pose proof (upsert_ok_web _ _ _ _ _ _ Hcleanp Hup) as Hweb0.
  destruct (upsert_quotes_covers _ _ _ _ Hclean0 Hok0 Hloop)
    as (Hclean1 & Hok1 & Hweb1 & Hfr1 & _ & Hcov1).
  (* second run: the same page, hence the same items *)
  assert (web s1 = web s) as Hweb by congruence.
  pose proof (parse_history_web ticker s1 s Hweb) as Hsame.
  rewrite Hparse, Hparse2 in Hsame. injection Hsame as ->.
  destruct (parse_history_post _ _ _ _ Hparse2) as [[ws2 Hlog2] _].
  pose proof (logged_clean _ _ _ Hlog2 Hclean1) as Hcleanp2.
  pose proof (logged_committed _ _ _ Hlog2) as Hcp2.
  clear Hparse Hparse2 Hlog Hlog2 Hup Hloop.
  rewrite <- Hcp2 in Hok1.
  assert (st ∈ rows (table_of Stock (committed sp2))) as Hst2.
  { rewrite Hcp2, (Hfr1 Stock) by done. exact Hst. }
  destruct (upsert_known Stock ["ticker"] _ _ _ st _ _ Hcleanp2 Hok1 eq_refl
              (reflexivity _) Hst2 Hmst Hup2) as [-> Hrows2].
  destruct (upsert_ok_post Stock ["ticker"] _ _ _ _ _ Hcleanp2 Hok1 eq_refl
              (reflexivity _) Hup2) as (Hclean02 & Hok02 & _).
  destruct (upsert_ok_frame _ _ _ _ _ _ Hcleanp2 Hup2) as (_ & Hfr02 & _).
  clear Hup2.
  destruct (upsert_quotes_covers _ _ _ _ Hclean02 Hok02 Hloop2)
    as (_ & _ & _ & Hfr2 & _ & _).
  assert (get "id" (stock_data ticker ∪ st) = get "id" st) as Hid
    by (by apply get_union_absent).
  pose proof (upsert_quotes_known (stock_data ticker ∪ st) history s02 s2
                Hclean02 Hok02) as Hknown.
  rewrite Hid in Hknown.
  rewrite (Hfr02 Quote) in Hknown by done. rewrite Hcp2 in Hknown.
  specialize (Hknown Hcov1 Hloop2). clear Hloop2.
  split; [reflexivity|]. split; [|split; [|split]].
  - exact Hknown.
  - rewrite (Hfr2 Stock), Hrows2, length_map, Hcp2 by done. reflexivity.
  - rewrite (Hfr2 Insider), (Hfr02 Insider), Hcp2 by done. reflexivity.
  - rewrite (Hfr2 Trade), (Hfr02 Trade), Hcp2 by done. reflexivity.
Qed.

(** ** Shape of the parsed records *)

Lemma trade_item_shape item :
  is_trade_item item ->
  ∃ c0 c1 d c3 c4 st lp sh,
    item = <["insider" := VStr c0]> (<["relation" := VStr c1]>
          (<["last_date" := VDate d]> (<["transaction_type" := VStr c3]>
          (<["owner_type" := VStr c4]> (<["shares_traded" := VFloat st]>
          (<["last_price" := lp]> (<["shares_hold" := VFloat sh]> ∅)))))))
    ∧ (lp = VNone ∨ ∃ f, lp = VFloat f).
Proof.
  intros [r Hr]. unfold spec_trade_record in Hr.
  do 9 (destruct r as [|? r]; try done).
  repeat (match type of Hr with
          | context [date_parse ?x] => destruct (date_parse x); simpl in Hr
          | context [decide (?x = "")] =>
              destruct (decide (x = "")); simpl in Hr
          | context [py_float ?x] => destruct (py_float x); simpl in Hr
          end; try done);
    injection Hr as <-; eexists _, _, _, _, _, _, _, _; (split; [done|]);
    [by left | right; by eexists].
Qed.

(** X13. Whatever the page, a call of [parse_history] that returns has
    changed nothing but the log, and every record it returns has exactly
    the six fields of a quote: a date and five numbers, none of them
    missing. *)
Theorem parse_history_records ticker s history s' :
  parse_history ticker s = (Ok history, s') ->
  (∃ ws, logged ws s s')
  ∧ ∀ item, item ∈ history ->
      ∃ d o h l c v,
        item = <["date" := VDate d]> (<["open_price" := VFloat o]>
              (<["high_price" := VFloat h]> (<["low_price" := VFloat l]>
              (<["close_price" := VFloat c]> (<["volume" := VFloat v]> ∅))))).
Proof.
  intros Hrun. destruct (parse_history_post _ _ _ _ Hrun) as [Hlog Hall].
  split; [exact Hlog|]. intros item Hin.
  apply history_item_inv.
  by apply (proj1 (Forall_forall _ _) (Hall history eq_refl)).
Qed.

(** X14. Whatever the page, a call of [parse_trades] that returns has
    changed nothing but the log, and every record it returns has exactly
    the eight fields of a trade, of which only the last price may be
    None. *)
Theorem parse_trades_records ticker page s trades s' :
  parse_trades ticker page s = (Ok trades, s') ->
  (∃ ws, logged ws s s')
  ∧ ∀ item, item ∈ trades ->
      ∃ c0 c1 d c3 c4 st lp sh,
        item = <["insider" := VStr c0]> (<["relation" := VStr c1]>
              (<["last_date" := VDate d]> (<["transaction_type" := VStr c3]>
              (<["owner_type" := VStr c4]> (<["shares_traded" := VFloat st]>
              (<["last_price" := lp]> (<["shares_hold" := VFloat sh]> ∅)))))))
        ∧ (lp = VNone ∨ ∃ f, lp = VFloat f).
Proof.
  intros Hrun. destruct (parse_trades_post _ _ _ _ _ Hrun) as [Hlog Hall].
  split; [exact Hlog|]. intros item Hin.
  apply trade_item_shape.
  by apply (proj1 (Forall_forall _ _) (Hall trades eq_refl)).
Qed.

(** ** Tasks *)

(** X15. With a page limit of zero or less, [range] is empty and [fetch]
    submits the history task of each ticker and nothing else; a negative
    limit is not an error. *)
Theorem no_trade_pages self tickers :
  max_trades_pages self <= 0 ->
  submitted self tickers = map FetchHistory tickers.
Proof.
  intros Hle. unfold submitted, range.
  assert (Z.to_nat (max_trades_pages self) = 0%nat) as -> by lia.
  simpl. induction tickers as [|ticker tickers IH]; [done|].
  simpl. by rewrite IH.
Qed.

(** The steps of a run of [fetch_trades] that returns. *)
Lemma fetch_trades_inv ticker page s msg s' :
  fetch_trades ticker page s = (Ok msg, s') ->
  ∃ trades sp stock s0,
    parse_trades ticker page s = (Ok trades, sp)
    ∧ msg = trades_message (length trades) ticker page
    ∧ upsert Stock (stock_data ticker) ["ticker"] sp = (Ok stock, s0)
    ∧ insert_trades stock trades s0 = (Ok tt, s').
Proof.
  intros Hrun. unfold fetch_trades in Hrun.
  apply bind_inv in Hrun as (trades & sp & Hparse & Hrun).
  apply bind_inv in Hrun as ([] & s1 & Hbody%try_reraise_inv & Hrun).
  injection Hrun as <- <-.
  apply bind_inv in Hbody as (stock & s0 & Hup & Hloop).
  exists trades, sp, stock, s0.
  split; [exact Hparse|]. split; [reflexivity|].
  split; [exact Hup | exact Hloop].
Qed.

Lemma stock_key_ticker ticker (x : row) :
  matches_keys (key_fields (stock_data ticker) ["ticker"]) x = true ->
  get "ticker" x = VStr ticker.
Proof.
  intros Hm. rewrite (proj1 (matches_keys_spec _ _ _) Hm "ticker") by (by left).
  unfold get, stock_data. by rewrite lookup_singleton_eq.
Qed.

(** X16. A task that returns has registered its ticker: the stocks hold a
    row with the ticker as it was given, also when the page had no row to
    parse or the page number was beyond the last page. *)
Theorem fetched_ticker_is_registered t s msg s' :
  clean s -> database_ok (committed s) ->
  run_task t s = (Ok msg, s') ->
  ∃ x, x ∈ rows (table_of Stock (committed s'))
       ∧ get "ticker" x = VStr (task_ticker t).
Proof.
  intros Hclean Hok Hrun. destruct t as [ticker|ticker page]; simpl in Hrun.
  - apply fetch_history_inv in Hrun
      as (history & sp & stock & s0 & Hparse & _ & Hup & Hloop).
    destruct (parse_history_post _ _ _ _ Hparse) as [[ws Hlog] _].
    pose proof (logged_clean _ _ _ Hlog Hclean) as Hcleanp.
    rewrite <- (logged_committed _ _ _ Hlog) in Hok.
    destruct (upsert_ok_post Stock ["ticker"] _ _ _ _ _ Hcleanp Hok eq_refl
                (reflexivity _) Hup)
      as (Hclean0 & Hok0 & st & -> & Hst & Hmst).
    destruct (upsert_quotes_covers _ _ _ _ Hclean0 Hok0 Hloop)
      as (_ & _ & _ & Hfr & _ & _).
    exists st. rewrite (Hfr Stock) by done.
    split; [exact Hst | by apply stock_key_ticker].
  - apply fetch_trades_inv in Hrun
      as (trades & sp & stock & s0 & Hparse & _ & Hup & Hloop).
    destruct (parse_trades_post _ _ _ _ _ Hparse) as [[ws Hlog] _].
    pose proof (logged_clean _ _ _ Hlog Hclean) as Hcleanp.
    rewrite <- (logged_committed _ _ _ Hlog) in Hok.
    destruct (upsert_ok_post Stock ["ticker"] _ _ _ _ _ Hcleanp Hok eq_refl
                (reflexivity _) Hup)
      as (Hclean0 & Hok0 & st & -> & Hst & Hmst).
    destruct (insert_trades_rows _ _ _ _ Hclean0 Hloop)
      as (_ & _ & _ & Hfr & _).
    exists st. rewrite Hfr.
    split; [exact Hst | by apply stock_key_ticker].
Qed.

(** X17. A task that returns has written to its own tables only: the
    history task leaves the insiders and the trades as they were, the
    trades task leaves the quotes as they were. *)
Theorem task_leaves_other_tables t s msg s' :
  clean s -> database_ok (committed s) ->
  run_task t s = (Ok msg, s') ->
  match t with
  | FetchHistory _ =>
      table_of Insider (committed s') = table_of Insider (committed s)
      ∧ table_of Trade (committed s') = table_of Trade (committed s)
  | FetchTrades _ _ =>
      table_of Quote (committed s') = table_of Quote (committed s)
  end.
Proof.
  intros Hclean Hok Hrun. destruct t as [ticker|ticker page]; simpl in Hrun.
  - apply fetch_history_inv in Hrun
      as (history & sp & stock & s0 & Hparse & _ & Hup & Hloop).
    destruct (parse_history_post _ _ _ _ Hparse) as [[ws Hlog] _].
    pose proof (logged_clean _ _ _ Hlog Hclean) as Hcleanp.
    pose proof (logged_committed _ _ _ Hlog) as Hcp.
    rewrite <- Hcp in Hok.
    destruct (upsert_ok_post Stock ["ticker"] _ _ _ _ _ Hcleanp Hok eq_refl
                (reflexivity _) Hup)
      as (Hclean0 & Hok0 & st & -> & _ & _).
    destruct (upsert_ok_frame _ _ _ _ _ _ Hcleanp Hup) as (_ & Hfr0 & _).
    destruct (upsert_quotes_covers _ _ _ _ Hclean0 Hok0 Hloop)
      as (_ & _ & _ & Hfr & _ & _).
    clear Hparse Hlog Hup Hloop.
    rewrite !Hfr, !Hfr0, Hcp by done. split; reflexivity.
  - destruct (fetch_trades_rows _ _ _ _ _ Hclean Hrun)
      as (trades & _ & _ & _ & _ & _ & Hq).
    exact Hq.
Qed.

End Proofs.

(** ** Examples *)

Section Witnesses.
Local Existing Instance ExampleLib.lib.



Lemma upsert_twice_last_write_wins_witness :
  ∃ rec,
    resident Insider (key_fields insider_v2 ["name"]) (committed insider_twice)
    = [rec]
    ∧ rec !! "relation" = Some (VStr "Director").
Proof.
  destruct (upsert_twice_last_write_wins Insider ["name"] ["name"]
              insider_v1 insider_v2 (fresh page_without_link)
              (Some (<["id" := VInt 1]> insider_v1)) insider_once
              (Some (<["id" := VInt 1]> insider_v2)) insider_twice)
    as (rec & Hres & _ & Hfields).
  - repeat split; reflexivity.
  - apply initial_state_consistent.
  - reflexivity.
  - reflexivity.
  - intros k Hk. apply list_elem_of_singleton in Hk as ->. reflexivity.
  - reflexivity.
  - reflexivity.
  - exists rec. split; [exact Hres|]. apply Hfields. reflexivity.
Defined.




Lemma parse_trades_page_count_cases_witness :
  parse_trades_page_count (page_with_link "/insider-trades?page=7")
                          (fresh page_without_link)
  = (Ok 7, fresh page_without_link)
  ∧ parse_trades_page_count (page_with_link "/insider-trades")
                            (fresh page_without_link)
    = (Ok 1, fresh page_without_link).
Proof.
  split.
  - destruct (parse_trades_page_count_cases
                (page_with_link "/insider-trades?page=7")
                (fresh page_without_link)) as (_ & Hnum & _).
    eapply Hnum; reflexivity.
  - destruct (parse_trades_page_count_cases
                (page_with_link "/insider-trades")
                (fresh page_without_link)) as (_ & _ & _ & Hdef).
    eapply Hdef; reflexivity.
Defined.

(** Without the link the page count is not 1 but a [ParsingError], and a
    page value that int() rejects gives a [ValueError]. *)
Lemma page_count_without_link_raises :
  fst (parse_trades_page_count page_without_link (fresh page_without_link))
  = Raise (ParsingError last_page_link)
  ∧ fst (parse_trades_page_count (page_with_link "/insider-trades?page=abc")
                                 (fresh page_without_link))
    = Raise (ValueError "abc").
Proof. split; reflexivity. Qed.




Lemma upsert_lookup_unchecked_witness :
  upsert Insider {["name" := VStr "DOE JOHN"]} ["name"]
         (fresh page_without_link)
  = (Raise AttributeError, after_rollback (fresh page_without_link)).
Proof.
  destruct (upsert_lookup_unchecked Insider {["name" := VStr "DOE JOHN"]}
              ["name"] (fresh page_without_link)
              (NotNullViolation "relation") (fresh page_without_link))
    as [Hmiss _].
  - repeat split; reflexivity.
  - discriminate.
  - intros k Hk. apply list_elem_of_singleton in Hk as ->.
    eexists. reflexivity.
  - intros k Hk. apply lookup_singleton_is_Some in Hk as <-.
    apply list_elem_of_In. simpl. tauto.
  - reflexivity.
  - apply Hmiss. reflexivity.
Defined.

(** ** Instances of the further properties *)

Lemma find_tag_first_match_witness :
  matches trades_div trades_container = true
  ∧ ∃ pre post,
      descendants trades_page = pre ++ trades_container :: post
      ∧ ∀ x, x ∈ pre -> matches trades_div x = false.
Proof.
  destruct (find_tag_first_match trades_page trades_div (fresh trades_page)
              trades_container (fresh trades_page))
    as (_ & Hm & Hfirst).
  - reflexivity.
  - split; [exact Hm | exact Hfirst].
Defined.

Lemma find_tag_missing_witness :
  find_tag page_without_link last_page_link (fresh page_without_link)
  = (Raise (ParsingError last_page_link), fresh page_without_link).
Proof.
  apply (proj1 (find_tag_missing page_without_link last_page_link
                  (fresh page_without_link))).
  intros x Hx. simpl in Hx. apply elem_of_nil in Hx. destruct Hx.
Defined.

Lemma parse_history_failures_witness :
  parse_history "AAPL" (fresh history_page_without_tbody)
  = (Raise AttributeError, fresh history_page_without_tbody)
  ∧ parse_history "AAPL" (fresh page_without_link)
    = (Raise (ParsingError quotes_div), fresh page_without_link).
Proof.
  split.
  - destruct (parse_history_failures "AAPL"
                (fresh history_page_without_tbody)
                history_page_without_tbody) as (_ & _ & Hno);
      [reflexivity|].
    eapply Hno; reflexivity.
  - destruct (parse_history_failures "AAPL" (fresh page_without_link)
                page_without_link) as (Hdiv & _);
      [reflexivity|].
    apply Hdiv. reflexivity.
Defined.

Lemma parse_trades_wrapped_rows_witness :
  parse_trades "AAPL" 1 (fresh wrapped_trades_page)
  = (Ok [], fresh wrapped_trades_page).
Proof.
  eapply (parse_trades_wrapped_rows "AAPL" 1 (fresh wrapped_trades_page)
            wrapped_trades_page 1).
  - reflexivity.
  - reflexivity.
  - lia.
  - reflexivity.
  - reflexivity.
  - intros c Hc. simpl in Hc. apply list_elem_of_singleton in Hc.
    rewrite Hc. reflexivity.
Defined.

Lemma last_price_is_not_stripped_witness :
  parse_trades_rows "AAPL" 1
    [["DOE JOHN"; "Officer"; "01/02/2019"; "Sell"; "direct"; "1,000";
      "1,234"; "5,000"]] [] (fresh trades_page)
  = (Ok [], add_log (WarnDataFormat "AAPL" (Some 1) (ValueError "1,234"))
                    (fresh trades_page)).
Proof.
  apply (last_price_is_not_stripped "AAPL" 1 [] [] (fresh trades_page)
           "DOE JOHN" "Officer" "01/02/2019" "Sell" "direct" "1,000"
           "1,234" "5,000" "01/02/2019" 1000).
  - discriminate.
  - reflexivity.
  - reflexivity.
  - reflexivity.
Defined.

Lemma trades_without_pager_fail_witness :
  fetch_trades "AAPL" 1 (fresh page_without_link)
  = (Raise (ParsingError last_page_link), fresh page_without_link).
Proof.
  destruct (trades_without_pager_fail "AAPL" 1 (fresh page_without_link)
              page_without_link) as [_ Hrun].
  - reflexivity.
  - reflexivity.
  - exact Hrun.
Defined.

Lemma failed_request_changes_nothing_witness :
  fetch_history "AAPL" (initial_state site_down)
  = (Raise (HTTPError "503"), initial_state site_down)
  ∧ fetch_trades "AAPL" 1 (initial_state site_down)
    = (Raise (HTTPError "503"), initial_state site_down).
Proof.
  destruct (failed_request_changes_nothing "AAPL" 1 (initial_state site_down)
              (HTTPError "503")) as [Hh Ht].
  split; [apply Hh | apply Ht]; reflexivity.
Defined.

Lemma upsert_missing_key_witness :
  upsert Quote {["date" := VDate "01/02/2019"]} ["date"; "stock_id"]
         (fresh page_without_link)
  = (Raise (KeyError "stock_id"), fresh page_without_link).
Proof.
  apply (upsert_missing_key Quote _ ["date"] "stock_id" []
           (fresh page_without_link)).
  - intros k Hk. apply list_elem_of_singleton in Hk. rewrite Hk.
    eexists. reflexivity.
  - reflexivity.
Defined.



Lemma refetched_trades_are_duplicated_witness :
  ∃ n,
    length (rows (table_of Trade (committed trades_once)))
    = (length (rows (table_of Trade (committed (fresh trades_page)))) + n)%nat
    ∧ length (rows (table_of Trade (committed trades_twice)))
      = (length (rows (table_of Trade (committed (fresh trades_page))))
         + 2 * n)%nat.
Proof.
  destruct (refetched_trades_are_duplicated "AAPL" 1 (fresh trades_page)
              "1 trade items for 'AAPL' has been collected (page: 1)"
              trades_once
              "1 trade items for 'AAPL' has been collected (page: 1)"
              trades_twice)
    as (n & _ & _ & H1 & H2).
  - repeat split; reflexivity.
  - reflexivity.
  - reflexivity.
  - exists n. split; [exact H1 | exact H2].
Defined.

Lemma refetched_history_adds_no_rows_witness :
  length (rows (table_of Quote (committed history_twice)))
  = length (rows (table_of Quote (committed history_once)))
  ∧ length (rows (table_of Stock (committed history_twice)))
    = length (rows (table_of Stock (committed history_once))).
Proof.
  destruct (refetched_history_adds_no_rows "AAPL" (fresh history_page)
              "1 history items for 'AAPL' has been collected" history_once
              "1 history items for 'AAPL' has been collected" history_twice)
    as (_ & Hq & Hs & _).
  - repeat split; reflexivity.
  - exact (proj1 (proj2 (initial_state_consistent (site_of history_page)))).
  - reflexivity.
  - reflexivity.
  - split; [exact Hq | exact Hs].
Defined.

Lemma parse_history_records_witness :
  Forall (fun item =>
            ∃ d o h l c v,
              item = <["date" := VDate d]> (<["open_price" := VFloat o]>
                    (<["high_price" := VFloat h]> (<["low_price" := VFloat l]>
                    (<["close_price" := VFloat c]>
                    (<["volume" := VFloat v]> ∅))))))
         (match fst (parse_history "AAPL" (fresh history_page)) with
          | Ok history => history
          | Raise _ => []
          end).
Proof.
  apply Forall_forall.
  destruct (parse_history_records "AAPL" (fresh history_page)
              (match fst (parse_history "AAPL" (fresh history_page)) with
               | Ok history => history
               | Raise _ => []
               end)
              (snd (parse_history "AAPL" (fresh history_page))))
    as [_ Hshape].
  - reflexivity.
  - exact Hshape.
Defined.

Lemma parse_trades_records_witness :
  Forall (fun item =>
            ∃ c0 c1 d c3 c4 st lp sh,
              item = <["insider" := VStr c0]> (<["relation" := VStr c1]>
                    (<["last_date" := VDate d]>
                    (<["transaction_type" := VStr c3]>
                    (<["owner_type" := VStr c4]>
                    (<["shares_traded" := VFloat st]>
                    (<["last_price" := lp]>
                    (<["shares_hold" := VFloat sh]> ∅)))))))
              ∧ (lp = VNone ∨ ∃ f, lp = VFloat f))
         (match fst (parse_trades "AAPL" 1 (fresh trades_page)) with
          | Ok trades => trades
          | Raise _ => []
          end).
Proof.
  apply Forall_forall.
  destruct (parse_trades_records "AAPL" 1 (fresh trades_page)
              (match fst (parse_trades "AAPL" 1 (fresh trades_page)) with
               | Ok trades => trades
               | Raise _ => []
               end)
              (snd (parse_trades "AAPL" 1 (fresh trades_page))))
    as [_ Hshape].
  - reflexivity.
  - exact Hshape.
Defined.

Lemma no_trade_pages_witness :
  submitted {| max_workers := 2; max_trades_pages := -1 |} ["A"; "B"]
  = [FetchHistory "A"; FetchHistory "B"].
Proof.
  apply (no_trade_pages {| max_workers := 2; max_trades_pages := -1 |}
           ["A"; "B"]).
  simpl. lia.
Defined.

Lemma fetched_ticker_is_registered_witness :
  ∃ x, x ∈ rows (table_of Stock (committed trades_beyond))
       ∧ get "ticker" x = VStr "AAPL".
Proof.
  apply (fetched_ticker_is_registered (FetchTrades "AAPL" 2)
           (fresh trades_page)
           "0 trade items for 'AAPL' has been collected (page: 2)"
           trades_beyond).
  - repeat split; reflexivity.
  - exact (proj1 (proj2 (initial_state_consistent (site_of trades_page)))).
  - reflexivity.
Defined.

Lemma task_leaves_other_tables_witness :
  table_of Insider (committed history_once)
  = table_of Insider (committed (fresh history_page))
  ∧ table_of Trade (committed history_once)
    = table_of Trade (committed (fresh history_page)).
Proof.
  apply (task_leaves_other_tables (FetchHistory "AAPL") (fresh history_page)
           "1 history items for 'AAPL' has been collected" history_once).
  - repeat split; reflexivity.
  - exact (proj1 (proj2 (initial_state_consistent (site_of history_page)))).
  - reflexivity.
Defined.

End Witnesses.
